(** * A shallow embedding of the Artvision copyright protector

    The development follows [system/scripts/copyright_protector.py] and
    [system/scripts/retry_blockchain.py]: the hasher, the proof store, the
    in-memory registry with its ledger file, the OpenTimestamps client and
    the operations [protect_file], [verify_file], [export_proof_package]
    and [retry_pending_files].

    Conventions.
    - [bytes] values are lists of [byte]; Python [str] values that the
      scripts treat as names, paths and hex digests are Rocq strings; the
      decoded text of a source file is a list of code points.
    - Methods of [CopyrightProtector] are computations in a state and
      exception monad over [St], the protector object together with the
      part of the operating system it touches (files, clock, network) and
      a log of the effects it performed.
    - [print] calls are not modelled. *)

From Stdlib Require Import NArith ZArith Strings.Byte Ascii String.
From stdpp Require Import base option list gmap strings fin_maps pretty.

Local Open Scope N_scope.

(** ** Bytes and hexadecimal text *)

Abbreviation bytes := (list byte).

Definition bytes_of_string (s : string) : bytes := String.list_byte_of_string s.

Module Hex.

Definition digit (n : N) : ascii :=
  Ascii.ascii_of_N (if n <? 10 then 48 + n else 87 + n).

(** [bytes.hex()]: two lower-case digits per byte. *)
Fixpoint hex (b : bytes) : string :=
  match b with
  | [] => EmptyString
  | x :: b' =>
      let n := Byte.to_N x in
      String (digit (n / 16)) (String (digit (n mod 16)) (hex b'))
  end.

Definition value (c : ascii) : option N :=
  let n := Ascii.N_of_ascii c in
  if (48 <=? n) && (n <=? 57) then Some (n - 48)
  else if (97 <=? n) && (n <=? 102) then Some (n - 87)
  else if (65 <=? n) && (n <=? 70) then Some (n - 55)
  else None.

Definition is_space (c : ascii) : bool :=
  let n := Ascii.N_of_ascii c in
  (n =? 32) || ((9 <=? n) && (n <=? 13)).

(** [bytes.fromhex(s)]: ASCII whitespace is skipped between bytes, every
    byte is two adjacent hexadecimal digits; anything else is a
    [ValueError] ([None]). *)
Fixpoint fromhex (s : string) : option bytes :=
  match s with
  | EmptyString => Some []
  | String c s' =>
      if is_space c then fromhex s'
      else
        match s' with
        | EmptyString => None
        | String d s'' =>
            match value c, value d, fromhex s'' with
            | Some hi, Some lo, Some rest =>
                match Byte.of_N (16 * hi + lo) with
                | Some x => Some (x :: rest)
                | None => None
                end
            | _, _, _ => None
            end
        end
  end.

End Hex.

(** ** hashlib.sha256

    The digest function is FIPS 180-4 SHA-256 on 32-bit words held in [N]. *)

Module Sha256.

Definition w32 (x : N) : N := x mod 2 ^ 32.
Definition add32 (x y : N) : N := w32 (x + y).
Definition rotr (n x : N) : N :=
  N.lor (N.shiftr x n) (w32 (N.shiftl x (32 - n))).
Definition not32 (x : N) : N := N.lxor x 0xffffffff.

Definition Ch (x y z : N) : N := N.lxor (N.land x y) (N.land (not32 x) z).
Definition Maj (x y z : N) : N :=
  N.lxor (N.lxor (N.land x y) (N.land x z)) (N.land y z).
Definition bsig0 (x : N) : N := N.lxor (N.lxor (rotr 2 x) (rotr 13 x)) (rotr 22 x).
Definition bsig1 (x : N) : N := N.lxor (N.lxor (rotr 6 x) (rotr 11 x)) (rotr 25 x).
Definition ssig0 (x : N) : N := N.lxor (N.lxor (rotr 7 x) (rotr 18 x)) (N.shiftr x 3).
Definition ssig1 (x : N) : N := N.lxor (N.lxor (rotr 17 x) (rotr 19 x)) (N.shiftr x 10).

(** The constants of FIPS 180-4, section 4.2.2 and 5.3.3: the first 32
    bits of the fractional parts of the cube roots, and of the square
    roots, of the first primes. *)
Definition primes : list N :=
  [2; 3; 5; 7; 11; 13; 17; 19; 23; 29; 31; 37; 41; 43; 47; 53;
   59; 61; 67; 71; 73; 79; 83; 89; 97; 101; 103; 107; 109; 113; 127; 131;
   137; 139; 149; 151; 157; 163; 167; 173; 179; 181; 191; 193; 197; 199; 211; 223;
   227; 229; 233; 239; 241; 251; 257; 263; 269; 271; 277; 281; 283; 293; 307; 311].

(** The largest [r] below [2 ^ bits] above the start value with
    [r ^ 3 <= n], found bit by bit. *)
Fixpoint cube_root (bits : nat) (n r : N) : N :=
  match bits with
  | O => r
  | S b =>
      let c := r + 2 ^ N.of_nat b in
      cube_root b n (if c * c * c <=? n then c else r)
  end.

Definition K : list N :=
  Eval vm_compute in map (fun p => w32 (cube_root 36 (p * 2 ^ 96) 0)) primes.

Definition H0 : list N :=
  Eval vm_compute in map (fun p => w32 (N.sqrt (p * 2 ^ 64))) (take 8 primes).

(** Big-endian packing of words. *)
Fixpoint be_bytes (n : nat) (x : N) : list N :=
  match n with
  | O => []
  | S n' => (x / 256 ^ N.of_nat n') mod 256 :: be_bytes n' x
  end.

Definition be_word (l : list N) : N := fold_left (fun acc b => 256 * acc + b) l 0.

Fixpoint group (size count : nat) (l : list N) : list (list N) :=
  match count with
  | O => []
  | S count' => take size l :: group size count' (drop size l)
  end.

Definition pad (msg : list N) : list N :=
  let len := length msg in
  let zeros := ((64 - (len + 9) mod 64) mod 64)%nat in
  msg ++ [0x80] ++ replicate zeros 0 ++ be_bytes 8 (8 * N.of_nat len).

(** The message schedule, kept as a window of the last sixteen words. *)
Fixpoint schedule (n : nat) (w : list N) : list N :=
  match n with
  | O => []
  | S n' =>
      let at_ i := nth i w 0 in
      let next :=
        add32 (add32 (ssig1 (at_ 14%nat)) (at_ 9%nat))
              (add32 (ssig0 (at_ 1%nat)) (at_ 0%nat)) in
      at_ 0%nat :: schedule n' (drop 1 w ++ [next])
  end.

Definition round (s : list N) (kw : N * N) : list N :=
  match s with
  | [a; b; c; d; e; f; g; h] =>
      let t1 := add32 (add32 (add32 h (bsig1 e)) (add32 (Ch e f g) (fst kw))) (snd kw) in
      let t2 := add32 (bsig0 a) (Maj a b c) in
      [add32 t1 t2; a; b; c; add32 d t1; e; f; g]
  | _ => s
  end.

Definition compress (h : list N) (block : list N) : list N :=
  let w := schedule 64 (map be_word (group 4 16 block)) in
  let s := fold_left round (zip K w) h in
  zip_with add32 h s.

Definition digest_N (msg : list N) : list N :=
  let p := pad msg in
  let h := fold_left compress (group 64 (length p / 64) p) H0 in
  concat (map (be_bytes 4) h).

Definition to_byte (n : N) : byte := default Byte.x00 (Byte.of_N n).

(** [hashlib.sha256(data).digest()] *)
Definition digest (data : bytes) : bytes :=
  map to_byte (digest_N (map Byte.to_N data)).

(** [hashlib.sha256(data).hexdigest()] *)
Definition hexdigest (data : bytes) : string := Hex.hex (digest data).

End Sha256.

Global Arguments Sha256.hexdigest : simpl never.
Global Arguments Sha256.digest : simpl never.
Global Arguments Hex.fromhex : simpl never.

(** ** UTF-8 text

    [open(path, 'r', encoding='utf-8').read()] decodes strictly and
    translates line ends; [str.encode('utf-8')] is the inverse direction.
    Text is a list of code points. *)

Abbreviation text := (list N).

Module Utf8.

Definition within (lo hi b : N) : bool := (lo <=? b) && (b <=? hi).
Definition cont (b : N) : bool := within 0x80 0xBF b.
Definition low6 (b : N) : N := b mod 64.

(** Range of the second byte, by lead byte (RFC 3629): overlong forms,
    surrogates and code points above U+10FFFF are refused. *)
Definition second_ok (b0 b1 : N) : bool :=
  if b0 =? 0xE0 then within 0xA0 0xBF b1
  else if b0 =? 0xED then within 0x80 0x9F b1
  else if b0 =? 0xF0 then within 0x90 0xBF b1
  else if b0 =? 0xF4 then within 0x80 0x8F b1
  else cont b1.

Fixpoint decode_N (l : list N) : option text :=
  match l with
  | [] => Some []
  | b0 :: l1 =>
      if b0 <? 0x80 then cons b0 <$> decode_N l1
      else if within 0xC2 0xDF b0 then
        match l1 with
        | b1 :: l2 =>
            if cont b1
            then cons ((b0 mod 32) * 64 + low6 b1) <$> decode_N l2
            else None
        | _ => None
        end
      else if within 0xE0 0xEF b0 then
        match l1 with
        | b1 :: b2 :: l3 =>
            if second_ok b0 b1 && cont b2
            then cons ((b0 mod 16) * 4096 + low6 b1 * 64 + low6 b2) <$> decode_N l3
            else None
        | _ => None
        end
      else if within 0xF0 0xF4 b0 then
        match l1 with
        | b1 :: b2 :: b3 :: l4 =>
            if second_ok b0 b1 && cont b2 && cont b3
            then cons ((b0 mod 8) * 262144 + low6 b1 * 4096 + low6 b2 * 64 + low6 b3)
                   <$> decode_N l4
            else None
        | _ => None
        end
      else None
  end.

(** [bytes.decode('utf-8')], [None] standing for [UnicodeDecodeError]. *)
Definition decode (b : bytes) : option text := decode_N (map Byte.to_N b).

Definition encode_cp (c : N) : list N :=
  if c <? 0x80 then [c]
  else if c <? 0x800 then [0xC0 + c / 64; 0x80 + low6 c]
  else if c <? 0x10000 then [0xE0 + c / 4096; 0x80 + low6 (c / 64); 0x80 + low6 c]
  else [0xF0 + (c / 262144) mod 8; 0x80 + low6 (c / 4096);
        0x80 + low6 (c / 64); 0x80 + low6 c].

(** [str.encode('utf-8')] *)
Definition encode (t : text) : bytes :=
  map Sha256.to_byte (concat (map encode_cp t)).

(** Text mode with the default [newline=None]: CR LF and a lone CR both
    read as LF. *)
Fixpoint universal_newlines (t : text) : text :=
  match t with
  | [] => []
  | c :: t' =>
      if c =? 13 then
        10 :: match t' with
              | d :: t'' => if d =? 10 then universal_newlines t''
                            else universal_newlines t'
              | [] => []
              end
      else c :: universal_newlines t'
  end.

End Utf8.

Global Arguments Utf8.decode : simpl never.
Global Arguments Utf8.encode : simpl never.

(** ** pathlib on POSIX paths in normal form *)

Module Pathlib.

Local Open Scope string_scope.

(** Splits at the last occurrence of [c]. *)
Fixpoint rsplit (c : ascii) (s : string) : option (string * string) :=
  match s with
  | EmptyString => None
  | String a s' =>
      match rsplit c s' with
      | Some (l, r) => Some (String a l, r)
      | None => if Ascii.eqb a c then Some (EmptyString, s') else None
      end
  end.

(** [Path(p).name] *)
Definition name (p : string) : string :=
  match rsplit "/" p with Some (_, r) => r | None => p end.

(** [Path(p).stem]: the name without its last suffix; a leading or a
    trailing dot does not start a suffix. *)
Definition stem (p : string) : string :=
  let n := name p in
  match rsplit "." n with
  | Some (l, r) => if String.eqb l EmptyString || String.eqb r EmptyString then n else l
  | None => n
  end.

(** [dir / file] *)
Definition join (dir file : string) : string := dir +:+ "/" +:+ file.

Definition is_absolute (p : string) : bool :=
  match p with String "/" _ => true | _ => false end.

(** [Path(p).absolute()] under the working directory [cwd] *)
Definition absolute (cwd p : string) : string :=
  if is_absolute p then p else join cwd p.

(** [s[:n]] *)
Definition prefix (n : nat) (s : string) : string := String.substring 0 n s.

End Pathlib.

(** ** Data model

    The dictionaries the scripts build are records; every key of the
    source is a field.  A time stamp is the reading of the clock at the
    call of [datetime.now()]. *)

Abbreviation timestamp := nat.

(** [create_local_proof]'s return value, stored under [proofs.local] *)
Record LocalProof := {
  proof_file : string;
  proof_hash : string;
}.

(** The receipt built by [create_timestamp_opentimestamps], stored under
    [proofs.blockchain]; [None] there means the anchor is absent. *)
Record AnchorReceipt := {
  service : string;
  blockchain : string;
  ots_file : string;
  verification_url : string;
  anchor_status : string;
  note : string;
}.

(** One element of [registry["files"]] *)
Record Entry := {
  e_id : Z;
  e_file_name : string;
  e_original_path : string;
  e_hash : string;
  e_hash_algorithm : string;
  e_registered_at : timestamp;
  e_project : option string;
  e_client : option string;
  e_description : option string;
  e_local : LocalProof;
  e_blockchain : option AnchorReceipt;
  e_status : string;
}.

(** [entry["proofs"]["blockchain"] = r] *)
Definition set_blockchain (r : option AnchorReceipt) (e : Entry) : Entry :=
  {| e_id := e_id e; e_file_name := e_file_name e;
     e_original_path := e_original_path e; e_hash := e_hash e;
     e_hash_algorithm := e_hash_algorithm e;
     e_registered_at := e_registered_at e; e_project := e_project e;
     e_client := e_client e; e_description := e_description e;
     e_local := e_local e; e_blockchain := r; e_status := e_status e |}.

(** [self.registry] *)
Record Registry := {
  files : list Entry;
  created : timestamp;
  updated : option timestamp;
}.

(** The proof document of [create_local_proof].  Its constant members
    (version, type, author, author_details, hash_algorithm, timezone) are
    the same in every document and are left to the encoder. *)
Record ProofDoc := {
  pd_name : string;
  pd_original_path : string;
  pd_size_bytes : nat;
  pd_hash : string;
  pd_created : timestamp;
  pd_unix : timestamp;
  pd_first_100_chars_hash : string;
  pd_last_100_chars_hash : string;
  pd_total_lines : nat;
  pd_total_chars : nat;
}.

(** The summary of [export_proof_package]; title, instructions and the
    legal notice (which repeats the entry's file name and registration
    date) are left to the encoder. *)
Record Summary := {
  sm_generated_at : timestamp;
  sm_entry : Entry;
}.

Inductive JsonDoc :=
| DocRegistry (r : Registry)
| DocProof (p : ProofDoc)
| DocSummary (s : Summary).

(** A file holds raw bytes, or a document written by [json.dump]; the
    latter is kept as the document, so that [json.load] of what
    [json.dump] wrote returns it. *)
Inductive FileData :=
| Raw (b : bytes)
| Json (d : JsonDoc).

(** The [json] module, as far as the scripts use it. *)
Class JsonCodec := {
  (** the bytes [json.dump(doc, f, ensure_ascii=False, indent=2)] writes *)
  json_dump : JsonDoc -> bytes;
  (** [json.dumps(proof, sort_keys=True)] *)
  json_dumps_sorted : ProofDoc -> text;
  (** [json.load] of a ledger that holds raw bytes; [None] is
      [JSONDecodeError] *)
  json_loads : bytes -> option Registry;
  (** an empty file is not a JSON document *)
  json_loads_empty : json_loads [] = None;
}.

(** ** The world of a protector *)

(** What a POST to the calendar endpoint meets. *)
Inductive Response :=
| Body (ots_data : bytes)     (* 2xx, [response.read()] *)
| NetURLError                 (* [urllib.error.URLError], also HTTPError *)
| NetOtherError.              (* any other [Exception] of the request *)

Inductive Event :=
| Posted (body : bytes)       (* [urlopen] was called with this body *)
| Wrote (path : string)       (* a file was opened for writing *)
| Saved.                      (* [_save_registry] rewrote the ledger *)

Inductive Exn :=
| FileNotFoundError
| UnicodeDecodeError
| ValueError
| URLError
| OtherError
| AttributeError
| JSONDecodeError
| KeyError
| LoopBound.

Inductive Res (A : Type) :=
| Ok (a : A)
| Raise (e : Exn).
Arguments Ok {A} a.
Arguments Raise {A} e.

Record St := {
  base_dir : string;                    (* [self.base_dir] *)
  registry : Registry;                  (* [self.registry] *)
  cwd : string;                         (* the working directory *)
  fs : gmap string FileData;            (* the files *)
  clock : timestamp;                    (* the next reading of the clock *)
  net : nat -> bytes -> Response;       (* the answer to the k-th POST *)
  log : list Event;                     (* effects so far, oldest first *)
}.

Definition with_registry (r : Registry) (st : St) : St :=
  {| base_dir := base_dir st; registry := r; cwd := cwd st; fs := fs st;
     clock := clock st; net := net st; log := log st |}.
Definition with_fs (m : gmap string FileData) (st : St) : St :=
  {| base_dir := base_dir st; registry := registry st; cwd := cwd st; fs := m;
     clock := clock st; net := net st; log := log st |}.
Definition with_clock (t : timestamp) (st : St) : St :=
  {| base_dir := base_dir st; registry := registry st; cwd := cwd st; fs := fs st;
     clock := t; net := net st; log := log st |}.
Definition with_log (l : list Event) (st : St) : St :=
  {| base_dir := base_dir st; registry := registry st; cwd := cwd st; fs := fs st;
     clock := clock st; net := net st; log := l |}.
Definition with_base_dir (d : string) (st : St) : St :=
  {| base_dir := d; registry := registry st; cwd := cwd st; fs := fs st;
     clock := clock st; net := net st; log := log st |}.

Definition proofs_dir (st : St) : string := Pathlib.join (base_dir st) "proofs".
Definition registry_file (st : St) : string := Pathlib.join (base_dir st) "registry.json".

Definition is_posted (ev : Event) : bool :=
  match ev with Posted _ => true | _ => false end.
Definition is_saved (ev : Event) : bool :=
  match ev with Saved => true | _ => false end.
Definition is_wrote (ev : Event) : bool :=
  match ev with Wrote _ => true | _ => false end.

(** Number of POSTs, of ledger rewrites and of other file writes in a log. *)
Definition posts (l : list Event) : nat := length (filter (fun ev => is_posted ev = true) l).
Definition saves (l : list Event) : nat := length (filter (fun ev => is_saved ev = true) l).
Definition writes (l : list Event) : nat := length (filter (fun ev => is_wrote ev = true) l).
Global Arguments posts : simpl never.
Global Arguments saves : simpl never.
Global Arguments writes : simpl never.

(** ** The monad of methods *)

Definition M (A : Type) : Type := St -> Res A * St.

Definition ret {A} (a : A) : M A := fun st => (Ok a, st).
Definition raise {A} (e : Exn) : M A := fun st => (Raise e, st).
Definition bind {A B} (m : M A) (k : A -> M B) : M B :=
  fun st => match m st with
            | (Ok a, st') => k a st'
            | (Raise e, st') => (Raise e, st')
            end.
(** [try: m except Exception as e: h e]; what [m] did before raising stays
    done. *)
Definition try_except {A} (m : M A) (h : Exn -> M A) : M A :=
  fun st => match m st with
            | (Ok a, st') => (Ok a, st')
            | (Raise e, st') => h e st'
            end.
Definition gets {A} (f : St -> A) : M A := fun st => (Ok (f st), st).
Definition modify (f : St -> St) : M unit := fun st => (Ok tt, f st).

Declare Scope py_scope.
Delimit Scope py_scope with py.
Notation "x <- m ;; k" := (bind m (fun x => k))
  (at level 100, m at next level, right associativity) : py_scope.
Notation "m ;;; k" := (bind m (fun _ => k))
  (at level 100, right associativity) : py_scope.
Local Open Scope py_scope.

(** [datetime.now()]: the clock is read and moves on. *)
Definition now : M timestamp :=
  fun st => (Ok (clock st), with_clock (S (clock st)) st).

Definition record (ev : Event) : M unit :=
  modify (fun st => with_log (log st ++ [ev]) st).

(** ** hashlib objects and file objects *)

(** A [hashlib.sha256()] object stands for the bytes it absorbed:
    [update(a); update(b)] is [update(a + b)], and [hexdigest()] is the
    digest of what was absorbed. *)
Record sha256_obj := { absorbed : bytes }.

Definition sha256_new : sha256_obj := {| absorbed := [] |}.
Definition sha256_update (h : sha256_obj) (block : bytes) : sha256_obj :=
  {| absorbed := absorbed h ++ block |}.
Definition sha256_hexdigest (h : sha256_obj) : string :=
  Sha256.hexdigest (absorbed h).

(** The digest of a byte string hashed at once,
    [hashlib.sha256(data).hexdigest()]: the fingerprint of the
    specification. *)
Definition fingerprint_bytes (data : bytes) : string :=
  sha256_hexdigest (sha256_update sha256_new data).

Global Arguments fingerprint_bytes : simpl never.

(** A file opened with ["rb"]: its content and the read position. *)
Record file_obj := { f_data : bytes; f_pos : nat }.

(** [f.read(n)] *)
Definition f_read (n : nat) (f : file_obj) : bytes * file_obj :=
  let block := take n (drop (f_pos f) (f_data f)) in
  (block, {| f_data := f_data f; f_pos := f_pos f + length block |}).

(** [for byte_block in iter(lambda: f.read(n), b''): h.update(byte_block)];
    [fuel] bounds the number of reads, [None] when it is used up. *)
Fixpoint read_blocks (fuel n : nat) (f : file_obj) (h : sha256_obj) : option sha256_obj :=
  match fuel with
  | O => None
  | S fuel' =>
      match f_read n f with
      | ([], _) => Some h
      | (block, f') => read_blocks fuel' n f' (sha256_update h block)
      end
  end.

(** ** CopyrightProtector *)

Section Protector.

Context `{JsonCodec}.
Local Open Scope string_scope.

(** The bytes of a file. *)
Definition file_bytes (d : FileData) : bytes :=
  match d with
  | Raw b => b
  | Json doc => json_dump doc
  end.

(** [open(path, "rb")] followed by reading *)
Definition open_rb (path : string) : M bytes :=
  fun st => match fs st !! path with
            | Some d => (Ok (file_bytes d), st)
            | None => (Raise FileNotFoundError, st)
            end.

(** [Path(path).exists()] *)
Definition exists_ (path : string) : M bool :=
  gets (fun st => match fs st !! path with Some _ => true | None => false end).

(** [with open(path, mode) as f: f.write(...)] *)
Definition write_file (path : string) (d : FileData) : M unit :=
  modify (fun st => with_log (log st ++ [Wrote path]) (with_fs (<[path := d]> (fs st)) st)).

(** [calculate_hash]; a file of [n] bytes is read in at most [n + 1]
    calls of [f.read(4096)]. *)
Definition calculate_hash (file_path : string) : M string :=
  data <- open_rb file_path ;;
  match read_blocks (S (length data)) 4096 {| f_data := data; f_pos := 0 |} sha256_new with
  | Some sha256_hash => ret (sha256_hexdigest sha256_hash)
  | None => raise LoopBound
  end.

(** [calculate_content_hash] *)
Definition calculate_content_hash (content : text) : string :=
  Sha256.hexdigest (Utf8.encode content).

(** [urllib.request.urlopen(req, timeout=30)] and [response.read()] *)
Definition urlopen (data : bytes) : M bytes :=
  fun st =>
    let st' := with_log (log st ++ [Posted data]) st in
    match net st (posts (log st)) data with
    | Body ots_data => (Ok ots_data, st')
    | NetURLError => (Raise URLError, st')
    | NetOtherError => (Raise OtherError, st')
    end.

Definition from_option {A} (e : Exn) (o : option A) : M A :=
  match o with Some a => ret a | None => raise e end.

(** [create_timestamp_opentimestamps] *)
Definition create_timestamp_opentimestamps (file_hash file_name : string)
  : M (option AnchorReceipt) :=
  try_except
    (hash_bytes <- from_option ValueError (Hex.fromhex file_hash) ;;
     ots_data <- urlopen hash_bytes ;;
     dir <- gets proofs_dir ;;
     let ots_filename := file_name +:+ "_" +:+ Pathlib.prefix 16 file_hash +:+ ".ots" in
     let ots_path := Pathlib.join dir ots_filename in
     write_file ots_path (Raw ots_data) ;;;
     ret (Some {| service := "OpenTimestamps";
                  blockchain := "Bitcoin";
                  ots_file := ots_path;
                  verification_url := "https://opentimestamps.org/";
                  anchor_status := "pending_confirmation";
                  note := "Подтверждение в блокчейне Bitcoin занимает ~2 часа" |}))
    (fun _ => ret None).

(** [open(file_path, 'r', encoding='utf-8')] and [f.read()] *)
Definition read_text (file_path : string) : M text :=
  data <- open_rb file_path ;;
  t <- from_option UnicodeDecodeError (Utf8.decode data) ;;
  ret (Utf8.universal_newlines t).

(** [file_path.stat().st_size] *)
Definition stat_size (file_path : string) : M nat :=
  data <- open_rb file_path ;;
  ret (length data).

(** [content.count('\n')] *)
Definition count_newlines (content : text) : nat :=
  length (filter (fun c => c = 10%N) content).

(** [create_local_proof] *)
Definition create_local_proof (file_path file_hash : string) : M LocalProof :=
  content <- read_text file_path ;;
  wd <- gets cwd ;;
  size <- stat_size file_path ;;
  t_created <- now ;;
  t_unix <- now ;;
  let proof :=
    {| pd_name := Pathlib.name file_path;
       pd_original_path := Pathlib.absolute wd file_path;
       pd_size_bytes := size;
       pd_hash := file_hash;
       pd_created := t_created;
       pd_unix := t_unix;
       pd_first_100_chars_hash := calculate_content_hash (take 100 content);
       pd_last_100_chars_hash :=
         calculate_content_hash (drop (length content - 100) content);
       pd_total_lines := count_newlines content + 1;
       pd_total_chars := length content |} in
  dir <- gets proofs_dir ;;
  let proof_filename :=
    Pathlib.stem file_path +:+ "_" +:+ Pathlib.prefix 16 file_hash +:+ "_proof.json" in
  let proof_path := Pathlib.join dir proof_filename in
  write_file proof_path (Json (DocProof proof)) ;;;
  ret {| proof_file := proof_path;
         proof_hash := calculate_content_hash (json_dumps_sorted proof) |}.

(** [_save_registry] *)
Definition _save_registry : M unit :=
  t <- now ;;
  modify (fun st =>
    with_registry {| files := files (registry st);
                     created := created (registry st);
                     updated := Some t |} st) ;;;
  modify (fun st =>
    with_log (log st ++ [Saved])
      (with_fs (<[registry_file st := Json (DocRegistry (registry st))]> (fs st)) st)).

(** [_load_registry].  A JSON document of another shape loads, but has
    no ["files"] key, and every use of the registry then raises
    [KeyError]; it is raised here. *)
Definition _load_registry : M Registry :=
  p <- gets registry_file ;;
  d <- gets (fun st => fs st !! p) ;;
  match d with
  | Some (Json (DocRegistry r)) => ret r
  | Some (Json _) => raise KeyError
  | Some (Raw b) => from_option JSONDecodeError (json_loads b)
  | None =>
      t <- now ;;
      ret {| files := []; created := t; updated := None |}
  end.

(** [CopyrightProtector(base_dir)]; the two [mkdir] calls create
    directories, which the file map leaves implicit. *)
Definition CopyrightProtector (base : string) : M unit :=
  modify (with_base_dir base) ;;;
  r <- _load_registry ;;
  modify (with_registry r).

(** The scan [for entry in self.registry["files"]: if entry["hash"] ==
    file_hash: return entry], shared by [protect_file] and [verify_file]. *)
Definition find_by_hash (file_hash : string) (l : list Entry) : option Entry :=
  List.find (fun entry => String.eqb (e_hash entry) file_hash) l.

(** [protect_file] *)
Definition protect_file (file_path : string)
    (project_name client_name description : option string) : M Entry :=
  ex <- exists_ file_path ;;
  if negb ex then raise FileNotFoundError else
  file_hash <- calculate_hash file_path ;;
  registered <- gets (fun st => find_by_hash file_hash (files (registry st))) ;;
  match registered with
  | Some entry => ret entry
  | None =>
      local_proof <- create_local_proof file_path file_hash ;;
      blockchain_proof <-
        create_timestamp_opentimestamps file_hash (Pathlib.stem file_path) ;;
      count <- gets (fun st => length (files (registry st))) ;;
      wd <- gets cwd ;;
      t <- now ;;
      let entry :=
        {| e_id := Z.of_nat count + 1;
           e_file_name := Pathlib.name file_path;
           e_original_path := Pathlib.absolute wd file_path;
           e_hash := file_hash;
           e_hash_algorithm := "SHA-256";
           e_registered_at := t;
           e_project := project_name;
           e_client := client_name;
           e_description := description;
           e_local := local_proof;
           e_blockchain := blockchain_proof;
           e_status := "protected" |} in
      modify (fun st =>
        with_registry {| files := files (registry st) ++ [entry];
                         created := created (registry st);
                         updated := updated (registry st) |} st) ;;;
      _save_registry ;;;
      ret entry
  end.

(** The dictionary [verify_file] returns; the message is fixed by the
    [verified] flag. *)
Inductive Verdict :=
| Verified (entry : Entry)
| NotVerified (current_hash : string).

(** [verify_file] *)
Definition verify_file (file_path : string) : M Verdict :=
  file_hash <- calculate_hash file_path ;;
  registered <- gets (fun st => find_by_hash file_hash (files (registry st))) ;;
  match registered with
  | Some entry => ret (Verified entry)
  | None => ret (NotVerified file_hash)
  end.

(** [shutil.copy(src, dst)] into the directory [dst] *)
Definition shutil_copy (src dst : string) : M unit :=
  d <- gets (fun st => fs st !! src) ;;
  match d with
  | Some data => write_file (Pathlib.join dst (Pathlib.name src)) data
  | None => raise FileNotFoundError
  end.

Definition nonempty (s : string) : bool := negb (String.eqb s EmptyString).

(** The scan [for e in self.registry["files"]: if e["id"] == file_id] *)
Definition find_by_id (file_id : Z) (l : list Entry) : option Entry :=
  List.find (fun e => Z.eqb (e_id e) file_id) l.

(** [export_proof_package].  [entry['proofs'].get('blockchain', {})] is
    the stored value when the key is there, also when that value is
    [None]; [.get('ots_file')] on [None] raises [AttributeError]. *)
Definition export_proof_package (file_id : Z) (output_dir : option string) : M string :=
  found <- gets (fun st => find_by_id file_id (files (registry st))) ;;
  match found with
  | None => raise ValueError
  | Some entry =>
      dir <- gets proofs_dir ;;
      let output_dir :=
        match output_dir with
        | Some d => if nonempty d then d else Pathlib.join dir "packages"
        | None => Pathlib.join dir "packages"
        end in
      let package_name :=
        "copyright_proof_" +:+ e_file_name entry +:+ "_" +:+ Pathlib.prefix 8 (e_hash entry) in
      let package_dir := Pathlib.join output_dir package_name in
      (if nonempty (proof_file (e_local entry))
       then shutil_copy (proof_file (e_local entry)) package_dir
       else ret tt) ;;;
      ots <- match e_blockchain entry with
             | Some receipt => ret (ots_file receipt)
             | None => raise AttributeError
             end ;;
      (if nonempty ots then shutil_copy ots package_dir else ret tt) ;;;
      t <- now ;;
      let summary := {| sm_generated_at := t; sm_entry := entry |} in
      write_file (Pathlib.join package_dir "SUMMARY.json") (Json (DocSummary summary)) ;;;
      ret package_dir
  end.

(** ** retry_blockchain *)

(** [entry["proofs"].get("blockchain") is None] *)
Definition is_pending (entry : Entry) : bool :=
  match e_blockchain entry with None => true | Some _ => false end.

(** The update of [retry_pending_files]:
    [for i, e in enumerate(files): if e["id"] == id: files[i]["proofs"]["blockchain"] = result; break] *)
Fixpoint update_anchor (id : Z) (result : AnchorReceipt) (l : list Entry) : list Entry :=
  match l with
  | [] => []
  | e :: l' =>
      if Z.eqb (e_id e) id then set_blockchain (Some result) e :: l'
      else e :: update_anchor id result l'
  end.

(** The loop [for entry in pending] with its two counters.  The entries
    of [pending] are the registry's own dictionaries; the loop reads
    their hash, file name and id, which nothing writes. *)
Fixpoint retry_loop (pending : list Entry) (success failed : nat) : M (nat * nat) :=
  match pending with
  | [] => ret (success, failed)
  | entry :: rest =>
      result <- create_timestamp_opentimestamps
                  (e_hash entry) (Pathlib.stem (e_file_name entry)) ;;
      match result with
      | Some receipt =>
          modify (fun st =>
            with_registry
              {| files := update_anchor (e_id entry) receipt (files (registry st));
                 created := created (registry st);
                 updated := updated (registry st) |} st) ;;;
          retry_loop rest (S success) failed
      | None => retry_loop rest success (S failed)
      end
  end.

(** The body of [retry_pending_files] once the protector is built: the
    scan for pending entries, the early return, the loop and the one
    [_save_registry] after it. *)
Definition retry_pending : M unit :=
  pending <- gets (fun st => List.filter is_pending (files (registry st))) ;;
  match pending with
  | [] => ret tt
  | _ =>
      retry_loop pending 0 0 ;;;
      _save_registry
  end.

(** [retry_pending_files] *)
Definition retry_pending_files (base : string) : M unit :=
  CopyrightProtector base ;;;
  retry_pending.

(** ** Calls on one protector *)

Inductive Call :=
| CallProtect (file_path : string) (project_name client_name description : option string)
| CallVerify (file_path : string)
| CallExport (file_id : Z) (output_dir : option string)
| CallRetry.

Definition run_call (c : Call) (st : St) : St :=
  match c with
  | CallProtect p pn cn ds => snd (protect_file p pn cn ds st)
  | CallVerify p => snd (verify_file p st)
  | CallExport i o => snd (export_proof_package i o st)
  | CallRetry => snd (retry_pending st)
  end.

(** The worlds a protector can be in: it starts with an empty registry,
    its methods and the retry pass are called in any order with any
    arguments, and between calls the files, the clock and the network
    may change in any way. *)
Inductive reachable : St -> Prop :=
| reach_empty st : files (registry st) = [] -> reachable st
| reach_call st c : reachable st -> reachable (run_call c st)
| reach_env st st' : reachable st -> registry st' = registry st -> reachable st'.

End Protector.

(** ** Interrupted persistence

    [_save_registry] opens the ledger with mode ['w'], which truncates it,
    and [json.dump] then writes the new text piece by piece.  A process
    stopped in between leaves the file as far as it was written. *)

Inductive SavePoint :=
| BeforeOpen                  (* after the time stamp, before [open] *)
| Written (n : nat).          (* after [open], [n] bytes of the text on disk *)

Section Interrupted.

Context `{JsonCodec}.

(** The files a process leaves behind when [_save_registry] stops at
    point [p]. *)
Definition save_interrupted (p : SavePoint) (st : St) : gmap string FileData :=
  match p with
  | BeforeOpen => fs st
  | Written n =>
      let r := {| files := files (registry st);
                  created := created (registry st);
                  updated := Some (clock st) |} in
      <[registry_file st := Raw (take n (json_dump (DocRegistry r)))]> (fs st)
  end.

End Interrupted.

(** ** A reference codec

    A compact JSON encoder, to run the model on examples.  It reads back
    the documents [json.dump] wrote, which the file map keeps as
    documents, and refuses a ledger given as raw bytes. *)

Module RefCodec.

Local Open Scope string_scope.

#[local] Unset Elimination Schemes.
Inductive json :=
| JNull
| JNum (n : Z)
| JStr (s : string)
| JArr (l : list json)
| JObj (l : list (string * json)).
#[local] Set Elimination Schemes.

Definition dquote : ascii := Ascii.ascii_of_N 34.

Fixpoint escape (s : string) : string :=
  match s with
  | EmptyString => EmptyString
  | String c s' =>
      if Ascii.eqb c dquote then String "\"%char (String c (escape s'))
      else if Ascii.eqb c "\"%char then String "\"%char (String c (escape s'))
      else String c (escape s')
  end.

Definition quote (s : string) : string :=
  String dquote (escape s) +:+ String dquote EmptyString.

Definition commas (l : list string) : string :=
  match l with
  | [] => EmptyString
  | x :: l' => fold_left (fun acc y => acc +:+ ", " +:+ y) l' x
  end.

Fixpoint render (j : json) : string :=
  match j with
  | JNull => "null"
  | JNum n => pretty n
  | JStr s => quote s
  | JArr l => "[" +:+ commas (map render l) +:+ "]"
  | JObj l => "{" +:+ commas (map (fun kv => quote (fst kv) +:+ ": " +:+ render (snd kv)) l) +:+ "}"
  end.

Definition opt_str (o : option string) : json :=
  match o with Some s => JStr s | None => JNull end.
Definition time (t : timestamp) : json := JNum (Z.of_nat t).

Definition of_local (p : LocalProof) : json :=
  JObj [("proof_file", JStr (proof_file p)); ("proof_hash", JStr (proof_hash p))].

Definition of_receipt (o : option AnchorReceipt) : json :=
  match o with
  | None => JNull
  | Some r =>
      JObj [("service", JStr (service r)); ("blockchain", JStr (blockchain r));
            ("ots_file", JStr (ots_file r)); ("verification_url", JStr (verification_url r));
            ("status", JStr (anchor_status r)); ("note", JStr (note r))]
  end.

Definition of_entry (e : Entry) : json :=
  JObj [("id", JNum (e_id e)); ("file_name", JStr (e_file_name e));
        ("original_path", JStr (e_original_path e)); ("hash", JStr (e_hash e));
        ("hash_algorithm", JStr (e_hash_algorithm e));
        ("registered_at", time (e_registered_at e));
        ("project", opt_str (e_project e)); ("client", opt_str (e_client e));
        ("description", opt_str (e_description e));
        ("proofs", JObj [("local", of_local (e_local e));
                         ("blockchain", of_receipt (e_blockchain e))]);
        ("status", JStr (e_status e))].

Definition of_registry (r : Registry) : json :=
  JObj [("files", JArr (map of_entry (files r)));
        ("metadata",
         JObj (("created", time (created r)) ::
               match updated r with Some t => [("updated", time t)] | None => [] end))].

(** Keys in sorted order at every level. *)
Definition of_proof (p : ProofDoc) : json :=
  JObj [("author", JStr "Artvision.pro");
        ("content_fingerprint",
         JObj [("first_100_chars_hash", JStr (pd_first_100_chars_hash p));
               ("last_100_chars_hash", JStr (pd_last_100_chars_hash p));
               ("total_chars", JNum (Z.of_nat (pd_total_chars p)));
               ("total_lines", JNum (Z.of_nat (pd_total_lines p)))]);
        ("file",
         JObj [("hash", JStr (pd_hash p)); ("hash_algorithm", JStr "SHA-256");
               ("name", JStr (pd_name p)); ("original_path", JStr (pd_original_path p));
               ("size_bytes", JNum (Z.of_nat (pd_size_bytes p)))]);
        ("timestamp",
         JObj [("created", time (pd_created p)); ("timezone", JStr "Europe/Moscow");
               ("unix", time (pd_unix p))]);
        ("type", JStr "copyright_proof");
        ("version", JStr "1.0")].

Definition of_summary (s : Summary) : json :=
  JObj [("document_type", JStr "copyright_proof_package");
        ("generated_at", time (sm_generated_at s));
        ("entry", of_entry (sm_entry s))].

Definition of_doc (d : JsonDoc) : json :=
  match d with
  | DocRegistry r => of_registry r
  | DocProof p => of_proof p
  | DocSummary s => of_summary s
  end.

Definition text_of_string (s : string) : text :=
  map Byte.to_N (bytes_of_string s).

#[export] Instance codec : JsonCodec := {|
  json_dump d := bytes_of_string (render (of_doc d));
  json_dumps_sorted p := text_of_string (render (of_proof p));
  json_loads _ := None;
  json_loads_empty := eq_refl;
|}.

End RefCodec.

(** ** Sample worlds *)

Module Sample.

Import RefCodec.
Local Open Scope string_scope.

(** The calendar server cannot be reached. *)
Definition offline : nat -> bytes -> Response := fun _ _ => NetURLError.
(** The calendar server answers every POST; the answer repeats the
    digest after one byte. *)
Definition online : nat -> bytes -> Response := fun _ data => Body (x00 :: data).

Definition page : bytes := bytes_of_string "<html>hi</html>".
Definition other_page : bytes := bytes_of_string "<html>bye</html>".
(** Latin-1 text: the byte [0xe9] alone is not UTF-8. *)
Definition latin1_page : bytes := bytes_of_string "<p>caf" ++ [xe9] ++ bytes_of_string "</p>".

Definition site : gmap string FileData :=
  {[ "/srv/site/a.html" := Raw page;
     "/srv/site/b.html" := Raw other_page;
     "/srv/site/c.html" := Raw latin1_page ]}.

(** A protector just created on a storage directory without a ledger. *)
Definition fresh (n : nat -> bytes -> Response) : St :=
  {| base_dir := "/srv/copyright";
     registry := {| files := []; created := 0; updated := None |};
     cwd := "/srv";
     fs := site;
     clock := 1;
     net := n;
     log := [] |}.

Definition with_net (n : nat -> bytes -> Response) (st : St) : St :=
  {| base_dir := base_dir st; registry := registry st; cwd := cwd st; fs := fs st;
     clock := clock st; net := n; log := log st |}.

(** After [protect_file("/srv/site/a.html")] *)
Definition protected_a (n : nat -> bytes -> Response) : St :=
  snd (protect_file "/srv/site/a.html" None None None (fresh n)).

(** The entry that call returned *)
Definition entry_a (n : nat -> bytes -> Response) : Res Entry :=
  fst (protect_file "/srv/site/a.html" None None None (fresh n)).

(** After [protect_file] of [a.html] and [b.html] *)
Definition protected_ab (n : nat -> bytes -> Response) : St :=
  snd (protect_file "/srv/site/b.html" (Some "portfolio") None None (protected_a n)).

(** Both pages were protected while the server was unreachable; now it
    answers. *)
Definition back_online : St := with_net online (protected_ab offline).

End Sample.

(** ** Vocabulary of the statements *)

(** Whether the POST of the digest [file_hash], made in world [st], is
    answered: the hash is hexadecimal and the server returns a body. *)
Definition anchor_succeeds (st : St) (file_hash : string) : bool :=
  match Hex.fromhex file_hash with
  | Some body =>
      match net st (posts (log st)) body with
      | Body _ => true
      | _ => false
      end
  | None => false
  end.

Global Arguments anchor_succeeds : simpl never.

(** What [protect_file] leaves behind when it registers the new entry
    [e] for the file at [path]. *)
Record Registered `{JsonCodec} (st : St) (path : string) (e : Entry) (st' : St) : Prop := {
  reg_files : files (registry st') = files (registry st) ++ [e];
  reg_created : created (registry st') = created (registry st);
  reg_id : e_id e = (Z.of_nat (length (files (registry st))) + 1)%Z;
  reg_hash : exists d, fs st !! path = Some d /\ e_hash e = fingerprint_bytes (file_bytes d);
  reg_status : e_status e = "protected"%string;
  reg_pending : is_pending e = negb (anchor_succeeds st (e_hash e));
  reg_base_dir : base_dir st' = base_dir st;
  reg_cwd : cwd st' = cwd st;
  reg_net : net st' = net st;
  reg_ledger : fs st' !! registry_file st' = Some (Json (DocRegistry (registry st')));
  reg_local : fs st' !! proof_file (e_local e) <> None;
  reg_saves : saves (log st') = S (saves (log st));
  reg_posts : (posts (log st') <= S (posts (log st)))%nat;
}.

(** Two entries that agree on every field but the blockchain proof. *)
Definition same_except_anchor (e e' : Entry) : Prop :=
  e_id e' = e_id e
  /\ e_file_name e' = e_file_name e
  /\ e_original_path e' = e_original_path e
  /\ e_hash e' = e_hash e
  /\ e_hash_algorithm e' = e_hash_algorithm e
  /\ e_registered_at e' = e_registered_at e
  /\ e_project e' = e_project e
  /\ e_client e' = e_client e
  /\ e_description e' = e_description e
  /\ e_local e' = e_local e
  /\ e_status e' = e_status e.

(** How a retry pass over [pending] may change an entry: nothing but the
    blockchain proof, and that only by giving a receipt to an entry whose
    id is the id of a pending entry. *)
Definition anchored_by (pending : list Entry) (e e' : Entry) : Prop :=
  same_except_anchor e e'
  /\ (e' = e \/ (e_id e ∈ map e_id pending /\ e_blockchain e' <> None)).

(** The bodies of the POSTs of a log, oldest first. *)
Definition posted_bodies (l : list Event) : list bytes :=
  omap (fun ev => match ev with Posted body => Some body | _ => None end) l.

Global Arguments posted_bodies : simpl never.

(** The anchor client succeeds on every entry of [r], whenever it is
    called, in every world with the network of [st]. *)
Definition always_anchors (st : St) (r : Registry) : Prop :=
  forall e st', e ∈ files r -> net st' = net st -> anchor_succeeds st' (e_hash e) = true.

(** The entry at index [i] has id [i + 1]. *)
Definition numbered (l : list Entry) : Prop :=
  forall i e, l !! i = Some e -> e_id e = (Z.of_nat i + 1)%Z.

(** ** Two statements that the code does not satisfy as they stand *)

Section AsStated.

Context `{JsonCodec}.

(** Retry convergence with a single persist, for every number of
    pending entries: the ledger under [base] holds the registry [r], the
    client always succeeds, and after the pass every entry has a
    receipt, one POST was made per pending entry and the ledger was
    rewritten exactly once. *)
Definition retry_converges_and_persists_once
    (base : string) (st : St) (r : Registry) : Prop :=
  fs st !! Pathlib.join base "registry.json" = Some (Json (DocRegistry r)) ->
  NoDup (map e_id (files r)) ->
  always_anchors st r ->
  let st' := snd (retry_pending_files base st) in
  Forall (fun e => is_pending e = false) (files (registry st'))
  /\ posts (log st') = (posts (log st) + length (List.filter is_pending (files r)))%nat
  /\ saves (log st') = S (saves (log st)).

(** A protector started on the files [m] gets a registry. *)
Definition ledger_loads (st : St) (m : gmap string FileData) : Prop :=
  exists r, fst (_load_registry (with_fs m st)) = Ok r.

(** Atomic persistence: wherever [_save_registry] is interrupted, the
    ledger it leaves still loads. *)
Definition persist_is_atomic (st : St) : Prop :=
  forall p, ledger_loads st (save_interrupted p st).

End AsStated.

(** * Properties *)

(** ** The hasher on known vectors *)

Example sha256_constants :
  nth 0 Sha256.K 0 = 0x428a2f98 /\ nth 63 Sha256.K 0 = 0xc67178f2
  /\ nth 0 Sha256.H0 0 = 0x6a09e667 /\ nth 7 Sha256.H0 0 = 0x5be0cd19.
Proof. repeat split. Qed.

Example sha256_empty :
  Sha256.hexdigest [] =
  "e3b0c44298fc1c149afbf4c8996fb92427ae41e4649b934ca495991b7852b855"%string.
Proof. vm_compute. reflexivity. Qed.

Example sha256_abc :
  Sha256.hexdigest (bytes_of_string "abc") =
  "ba7816bf8f01cfea414140de5dae2223b00361a396177a9cb410ff61f20015ad"%string.
Proof. vm_compute. reflexivity. Qed.

Example sha256_two_blocks :
  Sha256.hexdigest
    (bytes_of_string "abcdbcdecdefdefgefghfghighijhijkijkljklmklmnlmnomnopnopq") =
  "248d6a61d20638b8e5c026930c3e6039a33ce45964ff2167f6ecedd419db06c1"%string.
Proof. vm_compute. reflexivity. Qed.

Example fromhex_digest :
  Hex.fromhex (Sha256.hexdigest (bytes_of_string "abc"))
  = Some (Sha256.digest (bytes_of_string "abc")).
Proof. vm_compute. reflexivity. Qed.

Example utf8_ascii : Utf8.decode (bytes_of_string "<html>hi</html>")
  = Some [60; 104; 116; 109; 108; 62; 104; 105; 60; 47; 104; 116; 109; 108; 62].
Proof. vm_compute. reflexivity. Qed.

Example utf8_two_byte : Utf8.decode [xd0; x9c] = Some [0x41c].
Proof. vm_compute. reflexivity. Qed.

Example utf8_rejects_ff : Utf8.decode [x68; xff; x69] = None.
Proof. vm_compute. reflexivity. Qed.

Example utf8_rejects_overlong : Utf8.decode [xc0; x80] = None.
Proof. vm_compute. reflexivity. Qed.

Example utf8_rejects_surrogate : Utf8.decode [xed; xa0; x80] = None.
Proof. vm_compute. reflexivity. Qed.

Example utf8_roundtrip_sample :
  Utf8.decode (Utf8.encode [0x41; 0x41c; 0x20ac; 0x1f600]) = Some [0x41; 0x41c; 0x20ac; 0x1f600].
Proof. vm_compute. reflexivity. Qed.

Example newlines_sample :
  Utf8.universal_newlines [97; 13; 10; 98; 13; 99; 10] = [97; 10; 98; 10; 99; 10].
Proof. vm_compute. reflexivity. Qed.

Example stem_samples :
  Pathlib.stem "/srv/site/index.html" = "index"%string
  /\ Pathlib.stem "a.tar.gz" = "a.tar"%string
  /\ Pathlib.stem ".bashrc" = ".bashrc"%string
  /\ Pathlib.name "/srv/site/index.html" = "index.html"%string.
Proof. vm_compute. auto. Qed.

(** ** The hasher *)

Lemma sha256_update_nil h : sha256_update h [] = h.
Proof. destruct h as [a]. unfold sha256_update. simpl. by rewrite app_nil_r. Qed.

Lemma sha256_update_app h a b :
  sha256_update (sha256_update h a) b = sha256_update h (a ++ b).
Proof. unfold sha256_update. simpl. by rewrite app_assoc. Qed.

(** With [n > 0] and more fuel than bytes left, the loop ends at the end
    of the file and has absorbed exactly the bytes after the start
    position. *)
Lemma read_blocks_absorbs fuel n f h :
  (0 < n)%nat ->
  (length (f_data f) - f_pos f < fuel)%nat ->
  read_blocks fuel n f h = Some (sha256_update h (drop (f_pos f) (f_data f))).
Proof.
  intros Hn. revert f h.
  induction fuel as [|fuel IH]; intros [data pos] h Hfuel; simpl in *; [lia|].
  destruct (take n (drop pos data)) as [|x block] eqn:Hblock.
  - destruct (drop pos data) as [|y rest] eqn:Hrest.
    + by rewrite sha256_update_nil.
    + destruct n; [lia | discriminate].
  - assert (Hlen : (0 < length (take n (drop pos data)))%nat) by (rewrite Hblock; simpl; lia).
    rewrite <- Hblock.
    rewrite IH; simpl.
    + rewrite sha256_update_app. f_equal.
      rewrite <- drop_drop. set (rest := drop pos data).
      rewrite length_take.
      destruct (decide (n <= length rest)%nat) as [Hle|Hgt].
      * rewrite Nat.min_l by done. by rewrite take_drop.
      * rewrite Nat.min_r by lia.
        rewrite take_ge by lia. rewrite drop_ge by lia. by rewrite app_nil_r.
    + rewrite length_take, length_drop in *. lia.
Qed.

Section HasherFacts.

Context `{JsonCodec}.

(** [calculate_hash] reads nothing but the file and changes nothing. *)
Lemma calculate_hash_eq path st :
  calculate_hash path st =
  match fs st !! path with
  | Some d => (Ok (fingerprint_bytes (file_bytes d)), st)
  | None => (Raise FileNotFoundError, st)
  end.
Proof.
  unfold calculate_hash, bind, open_rb.
  destruct (fs st !! path) as [d|]; [|done].
  rewrite read_blocks_absorbs; simpl; [|lia..].
  by rewrite drop_0.
Qed.

End HasherFacts.

(** C5. Chunked hashing refinement: for every world and path,
    [calculate_hash], which reads the file in blocks of 4096 bytes and
    updates the SHA-256 object block by block, returns the digest of the
    whole content hashed at once, and leaves the world as it was; a
    missing file is the only failure. *)
Theorem calculate_hash_refines_fingerprint_bytes
    `{JsonCodec} (path : string) (st : St) :
  calculate_hash path st =
  match fs st !! path with
  | Some d => (Ok (fingerprint_bytes (file_bytes d)), st)
  | None => (Raise FileNotFoundError, st)
  end
  /\ (forall data n, (0 < n)%nat ->
        read_blocks (S (length data)) n {| f_data := data; f_pos := 0 |} sha256_new
        = Some (sha256_update sha256_new data))
  /\ (forall data, fingerprint_bytes data = Sha256.hexdigest data).
Proof.
  split; [apply calculate_hash_eq|]. split.
  - intros data n Hn. rewrite read_blocks_absorbs; simpl; [|lia..].
    by rewrite drop_0.
  - done.
Qed.

Example read_blocks_two_blocks :
  read_blocks 4500 4096 {| f_data := replicate 4499 x61; f_pos := 0 |} sha256_new
  = Some {| absorbed := replicate 4499 x61 |}.
Proof. vm_compute. reflexivity. Qed.

(** ** Counting events *)

Lemma posts_app l1 l2 : posts (l1 ++ l2) = (posts l1 + posts l2)%nat.
Proof. unfold posts. by rewrite filter_app, length_app. Qed.

Lemma saves_app l1 l2 : saves (l1 ++ l2) = (saves l1 + saves l2)%nat.
Proof. unfold saves. by rewrite filter_app, length_app. Qed.

Lemma posted_bodies_app l1 l2 :
  posted_bodies (l1 ++ l2) = posted_bodies l1 ++ posted_bodies l2.
Proof. unfold posted_bodies. by rewrite omap_app. Qed.

Lemma posted_bodies_length l : length (posted_bodies l) = posts l.
Proof.
  unfold posted_bodies, posts. induction l as [|ev l IH]; [done|].
  rewrite filter_cons. destruct ev; cbn; by rewrite IH.
Qed.

Lemma writes_app l1 l2 : writes (l1 ++ l2) = (writes l1 + writes l2)%nat.
Proof. unfold writes. by rewrite filter_app, length_app. Qed.

Lemma posts_one ev : posts [ev] = if is_posted ev then 1%nat else 0%nat.
Proof. by destruct ev. Qed.

Lemma saves_one ev : saves [ev] = if is_saved ev then 1%nat else 0%nat.
Proof. by destruct ev. Qed.

Lemma writes_one ev : writes [ev] = if is_wrote ev then 1%nat else 0%nat.
Proof. by destruct ev. Qed.

Create Rewrite HintDb events.
#[global] Hint Rewrite posts_app saves_app writes_app posts_one saves_one writes_one : events.

Ltac count_events := autorewrite with events; cbn [is_posted is_saved is_wrote]; try lia.

(** ** The steps of [protect_file] *)

Ltac unfold_monad :=
  unfold bind, try_except, gets, modify, ret, raise, from_option, now, record,
    write_file, open_rb, exists_ in *.

Ltac unfold_state :=
  unfold proofs_dir, registry_file, with_registry, with_fs, with_clock, with_log,
    with_base_dir in *.

Lemma bind_gets {A B} (f : St -> A) (k : A -> M B) st :
  bind (gets f) k st = k (f st) st.
Proof. reflexivity. Qed.

Lemma bind_modify {B} (f : St -> St) (k : unit -> M B) st :
  bind (modify f) k st = k tt (f st).
Proof. reflexivity. Qed.

Lemma bind_now {B} (k : timestamp -> M B) st :
  bind now k st = k (clock st) (with_clock (S (clock st)) st).
Proof. reflexivity. Qed.

Lemma bind_ret {A B} (a : A) (k : A -> M B) st : bind (ret a) k st = k a st.
Proof. reflexivity. Qed.

Lemma bind_raise {A B} (e : Exn) (k : A -> M B) st :
  bind (raise e) k st = (Raise e, st).
Proof. reflexivity. Qed.

Lemma bind_run {A B} (m : M A) (k : A -> M B) st r st' :
  m st = (r, st') ->
  bind m k st = match r with Ok a => k a st' | Raise e => (Raise e, st') end.
Proof. intros Hm. unfold bind. rewrite Hm. by destruct r. Qed.

Section Steps.

Context `{JsonCodec}.

(** The anchor client never raises: whatever the request meets, the
    caller gets a receipt or [None]. *)
Lemma create_timestamp_opentimestamps_eq file_hash file_name st :
  create_timestamp_opentimestamps file_hash file_name st =
  match Hex.fromhex file_hash with
  | None => (Ok None, st)
  | Some body =>
      let posted := with_log (log st ++ [Posted body]) st in
      match net st (posts (log st)) body with
      | Body ots_data =>
          let ots_path :=
            Pathlib.join (proofs_dir st)
              (file_name +:+ "_" +:+ Pathlib.prefix 16 file_hash +:+ ".ots") in
          (Ok (Some {| service := "OpenTimestamps";
                       blockchain := "Bitcoin";
                       ots_file := ots_path;
                       verification_url := "https://opentimestamps.org/";
                       anchor_status := "pending_confirmation";
                       note := "Подтверждение в блокчейне Bitcoin занимает ~2 часа" |}),
           with_log (log posted ++ [Wrote ots_path])
             (with_fs (<[ots_path := Raw ots_data]> (fs st)) posted))
      | _ => (Ok None, posted)
      end
  end.
Proof.
  unfold create_timestamp_opentimestamps, urlopen. unfold_monad.
  destruct (Hex.fromhex file_hash) as [body|]; [|done].
  cbn. by destruct (net st (posts (log st)) body).
Qed.

Lemma create_timestamp_opentimestamps_frame file_hash file_name st :
  exists r st',
    create_timestamp_opentimestamps file_hash file_name st = (Ok r, st')
    /\ registry st' = registry st /\ base_dir st' = base_dir st
    /\ cwd st' = cwd st /\ net st' = net st /\ clock st' = clock st
    /\ saves (log st') = saves (log st)
    /\ (posts (log st') <= S (posts (log st)))%nat
    /\ (forall p, fs st !! p <> None -> fs st' !! p <> None)
    /\ match r with
       | Some receipt =>
           anchor_succeeds st file_hash = true
           /\ posts (log st') = S (posts (log st))
           /\ (exists ots_data, fs st' = <[ots_file receipt := Raw ots_data]> (fs st))
           /\ exists body, Hex.fromhex file_hash = Some body
                           /\ posted_bodies (log st') = posted_bodies (log st) ++ [body]
       | None => anchor_succeeds st file_hash = false /\ fs st' = fs st
       end.
Proof.
  rewrite create_timestamp_opentimestamps_eq. unfold anchor_succeeds.
  destruct (Hex.fromhex file_hash) as [body|].
  - destruct (net st (posts (log st)) body) as [ots_data| |]; cbn;
      eexists _, _; (split; [reflexivity|]); cbn;
      repeat split; try done; try count_events.
    + intros p Hp. rewrite lookup_insert. by case_decide.
    + by exists ots_data.
    + exists body. split; [done|]. by rewrite !posted_bodies_app, app_nil_r.
  - eexists _, _. split; [reflexivity|]. repeat split; try done; lia.
Qed.

(** [create_local_proof] fails on text that does not decode, before it
    writes anything; otherwise it writes the proof document and nothing
    else. *)
Lemma create_local_proof_frame path file_hash st d :
  fs st !! path = Some d ->
  match Utf8.decode (file_bytes d) with
  | None => create_local_proof path file_hash st = (Raise UnicodeDecodeError, st)
  | Some _ =>
      exists lp st',
        create_local_proof path file_hash st = (Ok lp, st')
        /\ registry st' = registry st /\ base_dir st' = base_dir st
        /\ cwd st' = cwd st /\ net st' = net st
        /\ clock st' = S (S (clock st))
        /\ log st' = log st ++ [Wrote (proof_file lp)]
        /\ exists doc, fs st' = <[proof_file lp := Json (DocProof doc)]> (fs st)
  end.
Proof.
  intros Hf. unfold create_local_proof, read_text, stat_size. unfold_monad.
  rewrite Hf. destruct (Utf8.decode (file_bytes d)) as [t|]; [|done].
  cbn. rewrite Hf. cbn.
  eexists _, _. split; [reflexivity|]. cbn. repeat split; try done.
  by eexists.
Qed.

Lemma _save_registry_eq st :
  _save_registry st =
  let r := {| files := files (registry st);
              created := created (registry st);
              updated := Some (clock st) |} in
  (Ok tt,
   with_log (log st ++ [Saved])
     (with_fs (<[registry_file st := Json (DocRegistry r)]> (fs st))
        (with_registry r (with_clock (S (clock st)) st)))).
Proof. reflexivity. Qed.

(** The four ways [protect_file] ends. *)
Lemma protect_file_cases path pn cn ds st :
  match fs st !! path with
  | None => protect_file path pn cn ds st = (Raise FileNotFoundError, st)
  | Some d =>
      match find_by_hash (fingerprint_bytes (file_bytes d)) (files (registry st)) with
      | Some entry => protect_file path pn cn ds st = (Ok entry, st)
      | None =>
          match Utf8.decode (file_bytes d) with
          | None => protect_file path pn cn ds st = (Raise UnicodeDecodeError, st)
          | Some _ =>
              exists e st',
                protect_file path pn cn ds st = (Ok e, st')
                /\ Registered st path e st'
          end
      end
  end.
Proof.
  unfold protect_file, exists_. rewrite bind_gets.
  destruct (fs st !! path) as [d|] eqn:Hf; [|done].
  cbn [negb]. pose proof (calculate_hash_eq path st) as Hh. rewrite Hf in Hh.
  rewrite (bind_run _ _ _ _ _ Hh), bind_gets.
  destruct (find_by_hash _ _) as [entry|] eqn:Hreg; [done|].
  pose proof (create_local_proof_frame path (fingerprint_bytes (file_bytes d)) st d Hf) as Hlp.
  destruct (Utf8.decode (file_bytes d)) as [t|].
  - destruct Hlp as (lp & st1 & Hlp & Hr1 & Hb1 & Hc1 & Hn1 & Hk1 & Hl1 & doc & Hf1).
    rewrite (bind_run _ _ _ _ _ Hlp).
    destruct (create_timestamp_opentimestamps_frame
                (fingerprint_bytes (file_bytes d)) (Pathlib.stem path) st1)
      as (bp & st2 & Hts & Hr2 & Hb2 & Hc2 & Hn2 & Hk2 & Hs2 & Hp2 & Hfs2 & Hbp).
    rewrite (bind_run _ _ _ _ _ Hts).
    rewrite !bind_gets, bind_now, bind_modify.
    rewrite (bind_run _ _ _ _ _ (_save_registry_eq _)).
    eexists _, _. split; [reflexivity|].
    assert (Hsame : anchor_succeeds st1 (fingerprint_bytes (file_bytes d))
                    = anchor_succeeds st (fingerprint_bytes (file_bytes d))).
    { unfold anchor_succeeds. rewrite Hn1, Hl1. count_events. by rewrite Nat.add_0_r. }
    constructor; cbn; unfold_state; cbn.
    + by rewrite Hr2, Hr1.
    + by rewrite Hr2, Hr1.
    + by rewrite Hr2, Hr1.
    + by exists d.
    + done.
    +  unfold is_pending. cbn. rewrite <- Hsame.
      destruct bp as [receipt|]; by destruct Hbp as [-> _].
    + by rewrite Hb2, Hb1.
    + by rewrite Hc2, Hc1.
    + by rewrite Hn2, Hn1.
    + by rewrite lookup_insert_eq.
    + rewrite lookup_insert. case_decide; [done|].
      apply Hfs2. rewrite Hf1. by rewrite lookup_insert_eq.
    + count_events. rewrite Hs2, Hl1. count_events.
    + count_events. rewrite Hl1 in Hp2. revert Hp2. count_events.
  - by rewrite (bind_run _ _ _ _ _ Hlp).
Qed.

End Steps.

(** ** The scan of the registry *)

Lemma find_by_hash_Some h l e :
  find_by_hash h l = Some e -> e ∈ l /\ e_hash e = h.
Proof.
  unfold find_by_hash. intros Hfind. apply List.find_some in Hfind as [Hin Heq].
  split; [by apply list_elem_of_In | by apply String.eqb_eq].
Qed.

Lemma find_by_hash_None h l :
  find_by_hash h l = None <-> forall e, e ∈ l -> e_hash e <> h.
Proof.
  unfold find_by_hash. split.
  - intros Hfind e Hin Heq.
    pose proof (List.find_none _ _ Hfind e (proj1 (list_elem_of_In _ _) Hin)) as Hne.
    by apply String.eqb_neq in Hne.
  - intros Hall. induction l as [|x l IH]; [done|]. simpl.
    destruct (String.eqb (e_hash x) h) eqn:Heq.
    + apply String.eqb_eq in Heq. exfalso. apply (Hall x); [left | done].
    + apply IH. intros e He. apply Hall. by right.
Qed.

Lemma find_by_hash_is_Some h l e0 :
  e0 ∈ l -> e_hash e0 = h -> exists e, find_by_hash h l = Some e.
Proof.
  intros Hin Heq. destruct (find_by_hash h l) as [e|] eqn:Hfind; [by exists e|].
  exfalso. by apply (proj1 (find_by_hash_None h l) Hfind e0).
Qed.

Lemma find_by_hash_app h l1 l2 :
  find_by_hash h (l1 ++ l2) =
  match find_by_hash h l1 with Some e => Some e | None => find_by_hash h l2 end.
Proof.
  unfold find_by_hash. induction l1 as [|x l1 IH]; [done|]. simpl.
  by destruct (String.eqb (e_hash x) h).
Qed.

Lemma find_by_hash_snoc h l e :
  find_by_hash h l = None -> e_hash e = h -> find_by_hash h (l ++ [e]) = Some e.
Proof.
  intros Hnone Heq. rewrite find_by_hash_app, Hnone. unfold find_by_hash. simpl.
  by rewrite (proj2 (String.eqb_eq _ _) Heq).
Qed.

(** ** Protection *)

(** C1. Idempotent protection.  First part: when the fingerprint of the
    file at [path] is the hash of some entry of the registry,
    [protect_file] returns an entry of the registry with that hash and the
    world after the call is the world before it: the registry keeps its
    entries and its length, no proof is written, nothing is posted and the
    ledger is not rewritten.  Second part: when a call of [protect_file]
    returned entry [e1], a later call on the same registry and the same
    bytes at [path] returns [e1] again, so the same id, and changes
    nothing. *)
Theorem protect_file_idempotent `{JsonCodec}
    (st : St) (path : string) (pn cn ds : option string) :
  (forall d e0,
      fs st !! path = Some d ->
      e0 ∈ files (registry st) ->
      e_hash e0 = fingerprint_bytes (file_bytes d) ->
      exists e,
        protect_file path pn cn ds st = (Ok e, st)
        /\ e ∈ files (registry st)
        /\ e_hash e = fingerprint_bytes (file_bytes d))
  /\ (forall e1 st1 st2 pn' cn' ds',
        protect_file path pn cn ds st = (Ok e1, st1) ->
        registry st2 = registry st1 ->
        file_bytes <$> fs st2 !! path = file_bytes <$> fs st !! path ->
        protect_file path pn' cn' ds' st2 = (Ok e1, st2)
        /\ length (files (registry st2)) = length (files (registry st1))).
Proof.
  split.
  - intros d e0 Hf Hin Hhash.
    destruct (find_by_hash_is_Some _ _ _ Hin Hhash) as [e Hfind].
    pose proof (protect_file_cases path pn cn ds st) as Hcases.
    rewrite Hf, Hfind in Hcases.
    exists e. split; [done|]. by apply find_by_hash_Some.
  - intros e1 st1 st2 pn' cn' ds' Hrun Hreg Hbytes.
    split; [|by rewrite Hreg].
    pose proof (protect_file_cases path pn cn ds st) as Hcases.
    pose proof (protect_file_cases path pn' cn' ds' st2) as Hagain.
    destruct (fs st !! path) as [d|] eqn:Hf; cbn beta iota in *.
    2:{ rewrite Hcases in Hrun. discriminate. }
    destruct (fs st2 !! path) as [d2|]; [|done].
    injection Hbytes as Hbytes. rewrite Hbytes, Hreg in Hagain.
    destruct (find_by_hash _ (files (registry st))) as [entry|] eqn:Hfind.
    + assert (e1 = entry /\ st1 = st) as [-> ->] by (split; congruence).
      by rewrite Hfind in Hagain.
    + destruct (Utf8.decode (file_bytes d)); cbn beta iota in *.
      2:{ rewrite Hcases in Hrun. discriminate. }
      destruct Hcases as (e & st' & Hrun' & Hpost).
      assert (e1 = e /\ st1 = st') as [-> ->] by (split; congruence).
      destruct Hpost as [Hfiles _ _ (d' & Hd' & Hhash) _ _ _ _ _ _ _ _ _].
      rewrite Hfiles in Hagain.
      rewrite (find_by_hash_snoc _ _ e Hfind) in Hagain; [done|].
      rewrite Hhash. congruence.
Qed.

Lemma protect_file_idempotent_witness :
  let st := Sample.protected_a Sample.offline in
  exists e,
    protect_file (H := RefCodec.codec) "/srv/site/a.html" (Some "again"%string) None None st
    = (Ok e, st)
    /\ e_id e = 1%Z
    /\ length (files (registry st)) = 1%nat.
Proof.
  intros st.
  eassert (Hfirst : protect_file (H := RefCodec.codec) "/srv/site/a.html" None None None
                      (Sample.fresh Sample.offline) = (Ok _, _))
    by (vm_compute; reflexivity).
  destruct (proj2 (protect_file_idempotent (H := RefCodec.codec)
                     (Sample.fresh Sample.offline) "/srv/site/a.html" None None None)
              _ _ st (Some "again"%string) None None Hfirst) as [Hrun Hlen].
  - vm_compute. reflexivity.
  - vm_compute. reflexivity.
  - eexists. split; [exact Hrun|]. split; vm_compute; reflexivity.
Defined.


(** C10. The UTF-8 precondition of [protect_file].  For a file that
    exists, whose fingerprint is the hash of no entry and whose bytes do
    not decode as UTF-8: fingerprinting succeeds, and [protect_file]
    raises [UnicodeDecodeError] from [create_local_proof] with the world,
    hence the registry, as it was before the call.  Conversely, a call
    that registers a file not registered before was made on bytes that
    decode. *)
Theorem protect_file_requires_utf8 `{JsonCodec}
    (st : St) (path : string) (d : FileData) (pn cn ds : option string) :
  fs st !! path = Some d ->
  (forall e, e ∈ files (registry st) -> e_hash e <> fingerprint_bytes (file_bytes d)) ->
  (Utf8.decode (file_bytes d) = None ->
     calculate_hash path st = (Ok (fingerprint_bytes (file_bytes d)), st)
     /\ create_local_proof path (fingerprint_bytes (file_bytes d)) st
        = (Raise UnicodeDecodeError, st)
     /\ protect_file path pn cn ds st = (Raise UnicodeDecodeError, st))
  /\ (forall e st', protect_file path pn cn ds st = (Ok e, st') ->
        exists t, Utf8.decode (file_bytes d) = Some t).
Proof.
  intros Hf Hnew. apply find_by_hash_None in Hnew.
  pose proof (protect_file_cases path pn cn ds st) as Hcases.
  pose proof (create_local_proof_frame path (fingerprint_bytes (file_bytes d)) st d Hf) as Hlp.
  rewrite Hf, Hnew in Hcases. split.
  - intros Hdec. rewrite Hdec in Hcases, Hlp. repeat split; try done.
    by rewrite calculate_hash_eq, Hf.
  - intros e st' Hrun. destruct (Utf8.decode (file_bytes d)) as [t|]; [by exists t|].
    rewrite Hcases in Hrun. discriminate.
Qed.

Lemma protect_file_requires_utf8_witness :
  let st := Sample.fresh Sample.online in
  protect_file (H := RefCodec.codec) "/srv/site/c.html" None None None st
  = (Raise UnicodeDecodeError, st)
  /\ registry (snd (protect_file (H := RefCodec.codec) "/srv/site/c.html" None None None st))
     = registry st.
Proof.
  intros st.
  destruct (protect_file_requires_utf8 (H := RefCodec.codec) st "/srv/site/c.html"
              (Raw Sample.latin1_page) None None None) as [Hfail _].
  - vm_compute. reflexivity.
  - intros e He. vm_compute in He. inversion He.
  - destruct Hfail as (_ & _ & Hrun); [vm_compute; reflexivity|].
    split; [exact Hrun|]. exact (f_equal (fun out => registry (snd out)) Hrun).
Defined.

(** C2. Anchor-absent tolerance.  [create_timestamp_opentimestamps]
    never raises: on a hash that is not hexadecimal, a [URLError] or any
    other exception of the request it returns [None], and it returns a
    receipt exactly when the POST is answered.  When the submission of a
    new, decodable file is not answered, [protect_file] still returns an
    entry: it is the last of the registry, its blockchain proof is [None]
    and its status is ["protected"]. *)
Theorem protect_file_tolerates_anchor_failure `{JsonCodec}
    (st : St) (path : string) (d : FileData) (t : text) (pn cn ds : option string) :
  (forall file_hash file_name st0,
      exists r st0',
        create_timestamp_opentimestamps file_hash file_name st0 = (Ok r, st0')
        /\ (r = None <-> anchor_succeeds st0 file_hash = false))
  /\ (fs st !! path = Some d ->
      (forall e, e ∈ files (registry st) -> e_hash e <> fingerprint_bytes (file_bytes d)) ->
      Utf8.decode (file_bytes d) = Some t ->
      anchor_succeeds st (fingerprint_bytes (file_bytes d)) = false ->
      exists e st',
        protect_file path pn cn ds st = (Ok e, st')
        /\ e_blockchain e = None
        /\ e_status e = "protected"%string
        /\ e_hash e = fingerprint_bytes (file_bytes d)
        /\ files (registry st') = files (registry st) ++ [e]).
Proof.
  split.
  - intros file_hash file_name st0.
    destruct (create_timestamp_opentimestamps_frame file_hash file_name st0)
      as (r & st0' & Hrun & _ & _ & _ & _ & _ & _ & _ & _ & Hr).
    exists r, st0'. split; [done|].
    destruct r as [receipt|].
    + destruct Hr as [-> _]. split; discriminate.
    + by destruct Hr as [-> _].
  - intros Hf Hnew Hdec Hfail. apply find_by_hash_None in Hnew.
    pose proof (protect_file_cases path pn cn ds st) as Hcases.
    rewrite Hf, Hnew, Hdec in Hcases.
    destruct Hcases as (e & st' & Hrun & Hpost).
    destruct Hpost as [Hfiles _ _ (d' & Hd' & Hhash) Hstatus Hpend _ _ _ _ _ _ _].
    assert (d' = d) as -> by congruence.
    exists e, st'. repeat split; try done.
    rewrite Hhash, Hfail in Hpend. unfold is_pending in Hpend.
    by destruct (e_blockchain e).
Qed.

Lemma protect_file_tolerates_anchor_failure_witness :
  exists e st',
    protect_file (H := RefCodec.codec) "/srv/site/a.html" None None None
      (Sample.fresh Sample.offline) = (Ok e, st')
    /\ e_blockchain e = None
    /\ e_status e = "protected"%string.
Proof.
  destruct (proj2 (protect_file_tolerates_anchor_failure (H := RefCodec.codec)
              (Sample.fresh Sample.offline) "/srv/site/a.html" (Raw Sample.page)
              (RefCodec.text_of_string "<html>hi</html>") None None None))
    as (e & st' & Hrun & Hbc & Hstatus & _).
  - vm_compute. reflexivity.
  - intros e He. vm_compute in He. inversion He.
  - vm_compute. reflexivity.
  - vm_compute. reflexivity.
  - exists e, st'. exact (conj Hrun (conj Hbc Hstatus)).
Defined.

(** C4. Verification.  [verify_file] leaves the world as it was, whatever
    the path.  For a file that can be read: when some entry of the
    registry has the recomputed fingerprint as its hash, the verdict is
    [Verified] with an entry of the registry that has this hash; when no
    entry has it, the verdict is [NotVerified] with the recomputed
    fingerprint, which then differs from the hash of every entry. *)
Theorem verify_file_correct `{JsonCodec} (st : St) (path : string) :
  snd (verify_file path st) = st
  /\ forall d,
      fs st !! path = Some d ->
      let h := fingerprint_bytes (file_bytes d) in
      (forall e0, e0 ∈ files (registry st) -> e_hash e0 = h ->
         exists e, fst (verify_file path st) = Ok (Verified e)
                   /\ e ∈ files (registry st) /\ e_hash e = h)
      /\ ((forall e, e ∈ files (registry st) -> e_hash e <> h) ->
          fst (verify_file path st) = Ok (NotVerified h)).
Proof.
  unfold verify_file.
  pose proof (calculate_hash_eq path st) as Hh.
  destruct (fs st !! path) as [d|] eqn:Hf.
  - rewrite (bind_run _ _ _ _ _ Hh), bind_gets. split.
    + by destruct (find_by_hash _ _).
    + intros d' Hd'. assert (d' = d) as -> by congruence. cbn zeta. split.
      * intros e0 Hin Hhash.
        destruct (find_by_hash_is_Some _ _ _ Hin Hhash) as [e Hfind].
        rewrite Hfind. exists e. split; [done|]. by apply find_by_hash_Some.
      * intros Hnone. apply find_by_hash_None in Hnone. by rewrite Hnone.
  - rewrite (bind_run _ _ _ _ _ Hh). split; [done|]. intros d' Hd'. discriminate.
Qed.

Lemma verify_file_correct_witness :
  let st := Sample.protected_a Sample.offline in
  (exists e, fst (verify_file (H := RefCodec.codec) "/srv/site/a.html" st) = Ok (Verified e)
             /\ e_hash e = fingerprint_bytes Sample.page)
  /\ fst (verify_file (H := RefCodec.codec) "/srv/site/b.html" st)
     = Ok (NotVerified (fingerprint_bytes Sample.other_page)).
Proof.
  intros st. split.
  - destruct (verify_file_correct (H := RefCodec.codec) st "/srv/site/a.html") as [_ Hv].
    eassert (Hin : _ ∈ files (registry st)) by (vm_compute; left).
    destruct (proj1 (Hv (Raw Sample.page) ltac:(vm_compute; reflexivity)) _ Hin)
      as (e & Hrun & _ & Hhash).
    + vm_compute. reflexivity.
    + exists e. exact (conj Hrun Hhash).
  - destruct (verify_file_correct (H := RefCodec.codec) st "/srv/site/b.html") as [_ Hv].
    apply (proj2 (Hv (Raw Sample.other_page) ltac:(vm_compute; reflexivity))).
    intros e He. vm_compute in He.
    inversion He as [|? ? ? Hnil]; subst; [vm_compute; discriminate | inversion Hnil].
Defined.


(** ** The anchor update *)

Lemma same_except_anchor_refl e : same_except_anchor e e.
Proof. by repeat split. Qed.

Lemma same_except_anchor_trans e1 e2 e3 :
  same_except_anchor e1 e2 -> same_except_anchor e2 e3 -> same_except_anchor e1 e3.
Proof.
  unfold same_except_anchor. intros H12 H23.
  destruct H12 as (?&?&?&?&?&?&?&?&?&?&?), H23 as (?&?&?&?&?&?&?&?&?&?&?).
  repeat split; congruence.
Qed.

Lemma same_except_anchor_set r e : same_except_anchor e (set_blockchain r e).
Proof. by repeat split. Qed.

Lemma same_except_anchor_eq e e' :
  same_except_anchor e e' -> e_blockchain e' = e_blockchain e -> e' = e.
Proof.
  destruct e, e'. unfold same_except_anchor. simpl.
  intros (?&?&?&?&?&?&?&?&?&?&?) ?. congruence.
Qed.

Lemma same_except_anchor_is_set e e' :
  same_except_anchor e e' -> e' = set_blockchain (e_blockchain e') e.
Proof.
  intros Hsame. apply same_except_anchor_eq; [|done].
  eapply same_except_anchor_trans; [|exact Hsame].
  destruct Hsame as (?&?&?&?&?&?&?&?&?&?&?). by repeat split.
Qed.

Lemma length_update_anchor id r l : length (update_anchor id r l) = length l.
Proof.
  induction l as [|e l IH]; [done|]. simpl.
  destruct (Z.eqb (e_id e) id); simpl; by rewrite ?IH.
Qed.

Lemma update_anchor_ids id r l : map e_id (update_anchor id r l) = map e_id l.
Proof.
  induction l as [|e l IH]; [done|]. simpl.
  destruct (Z.eqb (e_id e) id); simpl; by rewrite ?IH.
Qed.

(** The update is the write [l[i] = set_blockchain (Some r) l[i]] at the
    first index [i] whose entry has the id, and nothing when there is
    none. *)
Lemma update_anchor_first id r l :
  update_anchor id r l =
  match list_find (fun e => e_id e = id) l with
  | Some (i, e) => <[i := set_blockchain (Some r) e]> l
  | None => l
  end.
Proof.
  induction l as [|e l IH]; [done|]. simpl.
  destruct (Z.eqb_spec (e_id e) id) as [Heq|Hne].
  - by rewrite decide_True.
  - rewrite decide_False by done. rewrite IH.
    destruct (list_find _ l) as [[i e']|]; done.
Qed.

Lemma update_anchor_frame id r l :
  Forall2 (fun e e' => same_except_anchor e e'
                       /\ (e' = e \/ (e_id e = id /\ e_blockchain e' = Some r)))
    l (update_anchor id r l).
Proof.
  induction l as [|e l IH]; [constructor|]. simpl.
  destruct (Z.eqb_spec (e_id e) id) as [Heq|Hne].
  - constructor.
    + split; [apply same_except_anchor_set | by right].
    + apply Forall2_same_length_lookup_2; [done|].
      intros i x y Hx Hy. assert (x = y) as -> by congruence.
      split; [apply same_except_anchor_refl | by left].
  - constructor; [|done]. split; [apply same_except_anchor_refl | by left].
Qed.

(** With unique ids, the update reaches exactly the entry with the id. *)
Lemma update_anchor_unique id r l :
  NoDup (map e_id l) ->
  Forall2 (fun e e' => if decide (e_id e = id) then e' = set_blockchain (Some r) e
                       else e' = e)
    l (update_anchor id r l).
Proof.
  induction l as [|e l IH]; [constructor|]. simpl. intros Hnd.
  apply NoDup_cons in Hnd as [Hnotin Hnd].
  destruct (Z.eqb_spec (e_id e) id) as [Heq|Hne].
  - constructor; [by rewrite decide_True|].
    apply Forall2_same_length_lookup_2; [done|].
    intros i x y Hx Hy. assert (x = y) as -> by congruence.
    rewrite decide_False; [done|]. intros Hid. apply Hnotin.
    rewrite Heq, <- Hid. apply list_elem_of_fmap. exists y. split; [done|].
    by eapply list_elem_of_lookup_2.
  - constructor; [by rewrite decide_False | by apply IH].
Qed.

(** ** The retry pass *)

Section Retry.

Context `{JsonCodec}.

Lemma anchored_by_refl pending l : Forall2 (anchored_by pending) l l.
Proof.
  apply Forall_Forall2_diag, Forall_forall. intros e _.
  split; [apply same_except_anchor_refl | by left].
Qed.

(** The loop never raises, touches no field of an entry but the
    blockchain proof, and leaves the ledger file, the clock and the
    registry metadata alone. *)
Lemma retry_loop_frame pending : forall success failed st,
  exists s f st',
    retry_loop pending success failed st = (Ok (s, f), st')
    /\ Forall2 (anchored_by pending) (files (registry st)) (files (registry st'))
    /\ created (registry st') = created (registry st)
    /\ updated (registry st') = updated (registry st)
    /\ base_dir st' = base_dir st /\ cwd st' = cwd st /\ net st' = net st
    /\ clock st' = clock st
    /\ saves (log st') = saves (log st)
    /\ (posts (log st') <= posts (log st) + length pending)%nat
    /\ (s + f = success + failed + length pending)%nat.
Proof.
  induction pending as [|p rest IH]; intros success failed st.
  - exists success, failed, st. cbn. repeat split; try done; try lia.
    apply anchored_by_refl.
  - cbn [retry_loop].
    destruct (create_timestamp_opentimestamps_frame (e_hash p)
                (Pathlib.stem (e_file_name p)) st)
      as (r & st1 & Hts & Hr1 & Hb1 & Hc1 & Hn1 & Hk1 & Hs1 & Hp1 & _ & Hres).
    rewrite (bind_run _ _ _ _ _ Hts).
    destruct r as [receipt|].
    + rewrite bind_modify.
      destruct (IH (S success) failed
                  (with_registry
                     {| files := update_anchor (e_id p) receipt (files (registry st1));
                        created := created (registry st1);
                        updated := updated (registry st1) |} st1))
        as (s & f & st' & Hloop & Hfiles & Hcr & Hup & Hb & Hc & Hn & Hk & Hs & Hp & Hsum).
      exists s, f, st'. split; [done|]. cbn in Hfiles, Hcr, Hup, Hb, Hc, Hn, Hk, Hs, Hp.
      split.
      { eapply Forall2_trans; [| |exact Hfiles].
        2:{ rewrite <- Hr1. apply update_anchor_frame. }
        intros x y z [Hxy Hy] [Hyz Hz]. split.
        - by eapply same_except_anchor_trans.
        - destruct Hz as [->|[Hin Hbc]].
          + destruct Hy as [->|[Hid Hbc]]; [by left|]. right. split.
            * rewrite Hid. left.
            * by rewrite Hbc.
          + right. split; [|done]. right.
            destruct Hxy as (Hid & _). by rewrite <- Hid. }
      cbn [length]. repeat split; first [congruence | lia].
    + destruct (IH success (S failed) st1)
        as (s & f & st' & Hloop & Hfiles & Hcr & Hup & Hb & Hc & Hn & Hk & Hs & Hp & Hsum).
      exists s, f, st'. split; [done|]. split.
      { rewrite <- Hr1. eapply Forall2_impl; [exact Hfiles|].
        intros x y [Hxy Hy]. split; [done|].
        destruct Hy as [->|[Hin Hbc]]; [by left|]. right. split; [by right|done]. }
      cbn [length]. repeat split; first [congruence | lia].
Qed.

(** With unique ids and a client that succeeds, the loop posts once per
    pending entry, in order, and every entry whose id is pending ends
    with a receipt; the others are untouched. *)
Lemma retry_loop_converges pending : forall success failed st,
  NoDup (map e_id (files (registry st))) ->
  (forall p st', p ∈ pending -> net st' = net st ->
                 anchor_succeeds st' (e_hash p) = true) ->
  exists st' bodies,
    retry_loop pending success failed st
    = (Ok ((success + length pending)%nat, failed), st')
    /\ Forall2 (fun e e' => if decide (e_id e ∈ map e_id pending)
                            then is_pending e' = false else e' = e)
         (files (registry st)) (files (registry st'))
    /\ posted_bodies (log st') = posted_bodies (log st) ++ bodies
    /\ Forall2 (fun p body => Hex.fromhex (e_hash p) = Some body) pending bodies.
Proof.
  induction pending as [|p rest IH]; intros success failed st Hnd Hnet.
  - exists st, []. cbn. rewrite Nat.add_0_r, app_nil_r.
    split; [done|]. split; [|split; [done|constructor]].
    apply Forall_Forall2_diag, Forall_forall. intros e _.
    rewrite decide_False; [done|]. by intros Hin%elem_of_nil.
  - cbn [retry_loop].
    destruct (create_timestamp_opentimestamps_frame (e_hash p)
                (Pathlib.stem (e_file_name p)) st)
      as (r & st1 & Hts & Hr1 & Hb1 & Hc1 & Hn1 & Hk1 & Hs1 & Hp1 & _ & Hres).
    rewrite (bind_run _ _ _ _ _ Hts).
    destruct r as [receipt|].
    2:{ destruct Hres as [Hfail _]. rewrite (Hnet p st) in Hfail; [done|left|done]. }
    destruct Hres as (_ & _ & _ & body & Hhex & Hbodies).
    rewrite bind_modify.
    destruct (IH (S success) failed
                (with_registry
                   {| files := update_anchor (e_id p) receipt (files (registry st1));
                      created := created (registry st1);
                      updated := updated (registry st1) |} st1))
      as (st' & bodies & Hloop & Hfiles & Hposted & Hall).
    { cbn. by rewrite update_anchor_ids, Hr1. }
    { intros q st'' Hq Hnet''. apply Hnet; [by right|]. cbn in Hnet''. congruence. }
    exists st', (body :: bodies). cbn in Hfiles, Hposted. cbn [length].
    split.
    { rewrite Hloop. by replace (S success + length rest)%nat
        with (success + S (length rest))%nat by lia. }
    split; [|split; [by rewrite Hposted, Hbodies, <- app_assoc | by constructor]].
    eapply Forall2_trans; [| |exact Hfiles].
    2:{ rewrite Hr1. by apply (update_anchor_unique (e_id p) receipt). }
    intros x y z Hxy Hyz. cbn beta in *.
    assert (Hid : e_id y = e_id x) by (destruct (decide (e_id x = e_id p)); by subst).
    rewrite Hid in Hyz.
    destruct (decide (e_id x ∈ map e_id rest)) as [Hin|Hnotin].
    + rewrite decide_True; [done|]. cbn. by right.
    + subst z. destruct (decide (e_id x = e_id p)) as [Heq|Hne].
      * rewrite decide_True; [by subst y|]. cbn. rewrite Heq. left.
      * rewrite decide_False; [done|]. cbn.
        intros [?|?]%elem_of_cons; done.
Qed.

End Retry.

Section RetryPass.

Context `{JsonCodec}.

Lemma CopyrightProtector_eq base st r :
  fs st !! Pathlib.join base "registry.json" = Some (Json (DocRegistry r)) ->
  CopyrightProtector base st = (Ok tt, with_registry r (with_base_dir base st)).
Proof.
  intros Hledger. unfold CopyrightProtector, _load_registry.
  rewrite bind_modify. unfold bind, gets, modify, ret. cbn.
  unfold registry_file. cbn. by rewrite Hledger.
Qed.

Lemma filter_is_pending_nil l :
  List.filter is_pending l = [] <-> Forall (fun e => is_pending e = false) l.
Proof.
  induction l as [|e l IH]; [by split; constructor|]. simpl.
  destruct (is_pending e) eqn:Hp.
  - split; [done|]. intros Hall. apply Forall_cons in Hall as [Hfalse _]. congruence.
  - rewrite IH. split; [by constructor|]. by intros [_ ?]%Forall_cons.
Qed.

Lemma elem_of_filter_is_pending e l :
  e ∈ List.filter is_pending l <-> e ∈ l /\ is_pending e = true.
Proof. rewrite !list_elem_of_In. apply List.filter_In. Qed.

Lemma retry_pending_frame st :
  Forall2 (anchored_by (List.filter is_pending (files (registry st))))
    (files (registry st)) (files (registry (snd (retry_pending st))))
  /\ created (registry (snd (retry_pending st))) = created (registry st).
Proof.
  unfold retry_pending. rewrite bind_gets.
  destruct (List.filter is_pending (files (registry st))) as [|p rest] eqn:Hpending.
  - split; [apply anchored_by_refl | done].
  - destruct (retry_loop_frame (p :: rest) 0 0 st)
      as (s & f & st' & Hloop & Hfiles & Hcr & _).
    rewrite (bind_run _ _ _ _ _ Hloop), _save_registry_eq. cbn. by split.
Qed.

Lemma retry_pending_ids st :
  map e_id (files (registry (snd (retry_pending st)))) = map e_id (files (registry st)).
Proof.
  destruct (retry_pending_frame st) as [Hfiles _].
  induction Hfiles as [|e e' l l' [(Hid & _) _] _ IH]; [done|].
  simpl. by rewrite Hid, IH.
Qed.

(** C7. Anchor update frame condition.  The update of the retry loop
    writes, at the first index whose entry has the id, that entry with
    its blockchain proof replaced, and writes nothing when no entry has
    the id; replacing the blockchain proof keeps the id, file name,
    path, hash, hash algorithm, registration time, project, client,
    description, local proof and status.  Over a whole pass the
    registry keeps its length and its creation time, and every entry
    keeps all those fields: it is either the entry it was, or that entry
    with a receipt, and then its id is the id of a pending entry. *)
Theorem update_anchor_frame_condition (st : St) :
  (forall id r l,
      update_anchor id r l =
      match list_find (fun e => e_id e = id) l with
      | Some (i, e) => <[i := set_blockchain (Some r) e]> l
      | None => l
      end)
  /\ (forall r e, same_except_anchor e (set_blockchain r e)
                  /\ e_blockchain (set_blockchain r e) = r)
  /\ Forall2 (anchored_by (List.filter is_pending (files (registry st))))
       (files (registry st)) (files (registry (snd (retry_pending st))))
  /\ length (files (registry (snd (retry_pending st)))) = length (files (registry st))
  /\ created (registry (snd (retry_pending st))) = created (registry st).
Proof.
  split; [apply update_anchor_first|].
  split; [intros r e; split; [apply same_except_anchor_set | done]|].
  pose proof (retry_pending_frame st) as Hframe.
  destruct Hframe as [Hfiles Hcr]. split; [done|]. split; [|done].
  symmetry. by eapply Forall2_length.
Qed.

(** C3, as the code has it.  The ledger under [base] holds a registry
    [r] with unique ids and the client always succeeds.  When no entry
    is pending, [retry_pending_files] returns at once: nothing is
    posted and the ledger is not rewritten.  When at least one entry is
    pending, the pass posts once per pending entry, in registry order
    and with that entry's digest, leaves every entry with a receipt and
    otherwise as it was, and rewrites the ledger exactly once, as its
    last effect, with the updated registry. *)
Theorem retry_pending_files_converges (base : string) (st : St) (r : Registry) :
  fs st !! Pathlib.join base "registry.json" = Some (Json (DocRegistry r)) ->
  NoDup (map e_id (files r)) ->
  always_anchors st r ->
  let pending := List.filter is_pending (files r) in
  let st' := snd (retry_pending_files base st) in
  fst (retry_pending_files base st) = Ok tt
  /\ (pending = [] -> st' = with_registry r (with_base_dir base st))
  /\ (pending <> [] ->
      Forall (fun e => is_pending e = false) (files (registry st'))
      /\ Forall2 same_except_anchor (files r) (files (registry st'))
      /\ (exists bodies,
            posted_bodies (log st') = posted_bodies (log st) ++ bodies
            /\ Forall2 (fun p body => Hex.fromhex (e_hash p) = Some body) pending bodies)
      /\ posts (log st') = (posts (log st) + length pending)%nat
      /\ saves (log st') = S (saves (log st))
      /\ (exists l, log st' = l ++ [Saved])
      /\ fs st' !! registry_file st' = Some (Json (DocRegistry (registry st')))).
Proof.
  intros Hledger Hnd Hnet pending st'. subst st'.
  unfold retry_pending_files.
  rewrite (bind_run _ _ _ _ _ (CopyrightProtector_eq base st r Hledger)).
  set (st0 := with_registry r (with_base_dir base st)).
  unfold retry_pending. rewrite bind_gets.
  change (files (registry st0)) with (files r). fold pending.
  destruct pending as [|p rest] eqn:Hpending; [done|].
  destruct (retry_loop_converges (p :: rest) 0 0 st0)
    as (st1 & bodies & Hloop & Hfiles & Hposted & Hbodies).
  { done. }
  { intros q st'' Hq Hnet''. apply Hnet; [|done].
    rewrite <- Hpending in Hq. by apply elem_of_filter_is_pending in Hq as [? _]. }
  destruct (retry_loop_frame (p :: rest) 0 0 st0)
    as (s & f & st1' & Hloop' & Hframe & _ & _ & Hb & _ & _ & _ & Hs & _).
  assert (st1' = st1) as -> by congruence.
  rewrite (bind_run _ _ _ _ _ Hloop), _save_registry_eq. cbn.
  split; [done|]. split; [done|]. intros _.
  split; [|split; [|split; [|split; [|split; [|split]]]]].
  - eapply Forall2_Forall_r; [exact Hfiles|].
    apply Forall_forall. intros e He e' Hee'. cbn beta in Hee'.
    change (files (registry st0)) with (files r) in He.
    destruct (decide (e_id e ∈ map e_id (p :: rest))) as [Hin|Hnotin]; [exact Hee'|].
    subst e'. destruct (is_pending e) eqn:Hpe; [|done].
    exfalso. apply Hnotin. apply list_elem_of_fmap. exists e. split; [done|].
    rewrite <- Hpending. by apply elem_of_filter_is_pending.
  - eapply Forall2_impl; [exact Hframe|]. by intros e e' [? _].
  - exists bodies. by rewrite posted_bodies_app, app_nil_r.
  - rewrite <- !posted_bodies_length, posted_bodies_app, app_nil_r, Hposted.
    rewrite length_app. f_equal. symmetry.
    exact (Forall2_length _ _ _ Hbodies).
  - count_events. rewrite Hs. cbn. lia.
  - by eexists.
  - unfold registry_file. cbn. by rewrite lookup_insert_eq.
Qed.

End RetryPass.

(** ** The retry pass on the sample worlds *)

Ltac by_compute :=
  match goal with |- ?P => apply (bool_decide_unpack P); vm_compute; exact I end.

Lemma always_anchors_online st r :
  net st = Sample.online ->
  Forall (fun e => is_Some (Hex.fromhex (e_hash e))) (files r) ->
  always_anchors st r.
Proof.
  intros Hnet Hhex e st' He Hnet'. unfold anchor_succeeds.
  rewrite Forall_forall in Hhex. destruct (Hhex e He) as [body ->].
  by rewrite Hnet', Hnet.
Qed.

Lemma retry_pending_files_converges_witness :
  let st' := snd (retry_pending_files (H := RefCodec.codec) "/srv/copyright" Sample.back_online) in
  Forall (fun e => is_pending e = false) (files (registry st'))
  /\ posts (log st') = (posts (log Sample.back_online) + 2)%nat
  /\ saves (log st') = S (saves (log Sample.back_online)).
Proof.
  intros st'.
  destruct (retry_pending_files_converges (H := RefCodec.codec) "/srv/copyright"
              Sample.back_online (registry Sample.back_online))
    as (_ & _ & Hpass).
  - vm_compute. reflexivity.
  - by_compute.
  - apply always_anchors_online; [reflexivity|].
    by_compute.
  - destruct Hpass as (Hall & _ & _ & Hposts & Hsaves & _).
    + vm_compute. discriminate.
    + split; [exact Hall|]. split; [exact Hposts | exact Hsaves].
Defined.

(** The statement of C3 fails when nothing is pending: on a ledger whose
    only entry already has a receipt, [retry_pending_files] returns
    before the loop and never reaches [_save_registry]. *)
Lemma retry_without_pending_does_not_persist :
  ~ retry_converges_and_persists_once (H := RefCodec.codec) "/srv/copyright"
      (Sample.protected_a Sample.online) (registry (Sample.protected_a Sample.online)).
Proof.
  intros Hclaim. destruct Hclaim as (_ & _ & Hsaves).
  - vm_compute. reflexivity.
  - by_compute.
  - apply always_anchors_online; [reflexivity|].
    by_compute.
  - vm_compute in Hsaves. discriminate.
Qed.


(** ** Export *)

Section ExportPackage.

Context `{JsonCodec}.

Lemma shutil_copy_registry src dst st :
  registry (snd (shutil_copy src dst st)) = registry st.
Proof.
  unfold shutil_copy. rewrite bind_gets. by destruct (fs st !! src).
Qed.

Lemma shutil_copy_cases src dst st :
  (exists e, shutil_copy src dst st = (Raise e, st))
  \/ (exists st', shutil_copy src dst st = (Ok tt, st') /\ registry st' = registry st).
Proof.
  unfold shutil_copy. rewrite bind_gets. destruct (fs st !! src).
  - right. by eexists.
  - left. by eexists.
Qed.

(** [export_proof_package] never changes the registry. *)
Lemma export_proof_package_registry file_id output_dir st :
  registry (snd (export_proof_package file_id output_dir st)) = registry st.
Proof.
  unfold export_proof_package. rewrite bind_gets.
  destruct (find_by_id file_id (files (registry st))) as [entry|]; [|done].
  rewrite bind_gets.
  set (dir := Pathlib.join _ _).
  assert (Hcopy : forall (b : bool) src st0,
    (exists e, (if b then shutil_copy src dir else ret tt) st0 = (Raise e, st0))
    \/ (exists st', (if b then shutil_copy src dir else ret tt) st0 = (Ok tt, st')
                    /\ registry st' = registry st0)).
  { intros [] src st0; [apply shutil_copy_cases | right; by eexists]. }
  destruct (Hcopy (nonempty (proof_file (e_local entry))) (proof_file (e_local entry)) st)
    as [[e He]|(st1 & He & Hr1)]; rewrite (bind_run _ _ _ _ _ He); [done|].
  destruct (e_blockchain entry) as [receipt|]; [|by rewrite bind_raise].
  rewrite bind_ret.
  destruct (Hcopy (nonempty (ots_file receipt)) (ots_file receipt) st1)
    as [[e He2]|(st2 & He2 & Hr2)]; rewrite (bind_run _ _ _ _ _ He2); [done|].
  rewrite bind_now. unfold write_file. rewrite bind_modify. cbn. congruence.
Qed.

(** An id that no entry has is refused and nothing happens. *)
Lemma export_proof_package_unknown file_id output_dir st :
  (forall e, e ∈ files (registry st) -> e_id e <> file_id) ->
  export_proof_package file_id output_dir st = (Raise ValueError, st).
Proof.
  intros Hnone. unfold export_proof_package. rewrite bind_gets.
  destruct (find_by_id file_id (files (registry st))) as [entry|] eqn:Hfind; [|done].
  unfold find_by_id in Hfind. apply List.find_some in Hfind as [Hin Heq].
  exfalso. apply (Hnone entry); [by apply list_elem_of_In | by apply Z.eqb_eq].
Qed.

(** An entry without a receipt is never exported: the call raises,
    [AttributeError] at the latest, before the summary is written. *)
Lemma export_proof_package_unanchored file_id output_dir st entry :
  find_by_id file_id (files (registry st)) = Some entry ->
  e_blockchain entry = None ->
  exists e st', export_proof_package file_id output_dir st = (Raise e, st')
                /\ (e = AttributeError \/ e = FileNotFoundError).
Proof.
  intros Hfind Hnone. unfold export_proof_package. rewrite bind_gets, Hfind, bind_gets.
  set (dir := Pathlib.join _ _).
  destruct (nonempty (proof_file (e_local entry))).
  - unfold shutil_copy at 1. rewrite Hnone.
    unfold bind at 1. rewrite bind_gets.
    destruct (fs st !! proof_file (e_local entry)).
    + unfold write_file, modify. rewrite bind_raise. eexists _, _. split; [done|by left].
    + eexists _, _. split; [done|by right].
  - rewrite bind_ret, Hnone, bind_raise. eexists _, _. split; [done|by left].
Qed.

End ExportPackage.

(** C9, at the failing input.  [a.html] was protected while the calendar
    server could not be reached, so its entry, id 1, has no blockchain
    proof.  Exporting id 1 copies the local proof into the package
    directory and then raises [AttributeError]: no [SUMMARY.json] is
    written and no package location is returned.  The registry is left as
    it was. *)
Theorem export_proof_package_unanchored_raises :
  let st := Sample.protected_a Sample.offline in
  let out := export_proof_package 1 None st in
  let package := "/srv/copyright/proofs/packages/copyright_proof_a.html_beb6d42e"%string in
  (exists e, find_by_id 1 (files (registry st)) = Some e /\ e_blockchain e = None)
  /\ fst out = Raise AttributeError
  /\ fs (snd out) !! (package +:+ "/a_beb6d42e2e372ff3_proof.json") <> None
  /\ fs (snd out) !! (package +:+ "/SUMMARY.json") = None
  /\ registry (snd out) = registry st.
Proof.
  intros st out package. split; [eexists; split; vm_compute; reflexivity|].
  split; [vm_compute; reflexivity|].
  split; [vm_compute; discriminate|].
  split; vm_compute; reflexivity.
Qed.

Example export_proof_package_anchored :
  let st := Sample.protected_a Sample.online in
  let out := export_proof_package 1 None st in
  let package := "/srv/copyright/proofs/packages/copyright_proof_a.html_beb6d42e"%string in
  fst out = Ok package
  /\ fs (snd out) !! (package +:+ "/a_beb6d42e2e372ff3_proof.json")
     = fs st !! "/srv/copyright/proofs/a_beb6d42e2e372ff3_proof.json"
  /\ fs (snd out) !! (package +:+ "/a_beb6d42e2e372ff3.ots")
     = fs st !! "/srv/copyright/proofs/a_beb6d42e2e372ff3.ots"
  /\ is_Some (fs (snd out) !! (package +:+ "/SUMMARY.json")).
Proof.
  intros st out package.
  split; [vm_compute; reflexivity|].
  split; [vm_compute; reflexivity|].
  split; [vm_compute; reflexivity|].
  vm_compute. eexists. reflexivity.
Qed.


(** ** Persistence *)

Section Persist.

Context `{JsonCodec}.

Lemma _load_registry_raw st m b :
  m !! registry_file st = Some (Raw b) ->
  fst (_load_registry (with_fs m st)) =
  match json_loads b with Some r => Ok r | None => Raise JSONDecodeError end.
Proof.
  intros Hm. unfold _load_registry. rewrite !bind_gets. cbn.
  change (registry_file (with_fs m st)) with (registry_file st). rewrite Hm.
  by destruct (json_loads b).
Qed.

(** C8, as the code has it.  [_save_registry] stamps the registry with
    the time and rewrites the ledger in place.  A call that runs to its
    end leaves the ledger holding the stamped registry, which a new
    protector loads back.  A call interrupted before [open] leaves the
    files as they were.  A call interrupted after [open] leaves, under
    the ledger's name, the first bytes of the new text, as many as were
    written, and every other file as it was; interrupted before the
    first byte, the ledger is empty and a new protector fails to load it
    with [JSONDecodeError].  There is no temporary file and no
    rename. *)
Theorem save_registry_rewrites_in_place (st : St) :
  let r' := {| files := files (registry st);
               created := created (registry st);
               updated := Some (clock st) |} in
  let done := snd (_save_registry st) in
  fst (_save_registry st) = Ok tt
  /\ registry done = r'
  /\ fs done = <[registry_file st := Json (DocRegistry r')]> (fs st)
  /\ _load_registry done = (Ok r', done)
  /\ saves (log done) = S (saves (log st))
  /\ save_interrupted BeforeOpen st = fs st
  /\ (forall n,
        save_interrupted (Written n) st
        = <[registry_file st := Raw (take n (json_dump (DocRegistry r')))]> (fs st))
  /\ fst (_load_registry (with_fs (save_interrupted (Written 0) st) st))
     = Raise JSONDecodeError.
Proof.
  intros r' done. subst done. rewrite _save_registry_eq. cbn zeta.
  split; [done|]. split; [done|]. split; [done|]. split.
  { unfold _load_registry, registry_file. rewrite !bind_gets. cbn.
    by rewrite lookup_insert_eq. }
  split; [cbn; count_events|]. split; [done|]. split; [done|].
  rewrite (_load_registry_raw st _ []).
  - by rewrite json_loads_empty.
  - cbn. by rewrite lookup_insert_eq.
Qed.

End Persist.

(** The statement of C8 fails: stopped right after [open] truncated the
    ledger of a protector with one entry, [_save_registry] leaves an empty
    file where the ledger was, and the next protector cannot load it. *)
Lemma save_registry_interrupted_loses_ledger :
  ~ persist_is_atomic (H := RefCodec.codec) (Sample.protected_a Sample.offline).
Proof.
  intros Hatomic. destruct (Hatomic (Written 0)) as [r Hr].
  vm_compute in Hr. discriminate.
Qed.

Example ledger_before_interruption :
  exists r, _load_registry (H := RefCodec.codec) (Sample.protected_a Sample.offline)
            = (Ok r, Sample.protected_a Sample.offline)
            /\ length (files r) = 1%nat.
Proof. eexists. split; vm_compute; reflexivity. Qed.


(** ** Ids *)

Section Ids.

Context `{JsonCodec}.

Lemma verify_file_state path st : snd (verify_file path st) = st.
Proof.
  unfold verify_file. pose proof (calculate_hash_eq path st) as Hh.
  destruct (fs st !! path); rewrite (bind_run _ _ _ _ _ Hh); [|done].
  rewrite bind_gets. by destruct (find_by_hash _ _).
Qed.

(** A call keeps the ids of the registry, or appends one entry whose id
    is the number of entries plus one. *)
Lemma run_call_ids c st :
  map e_id (files (registry (run_call c st))) = map e_id (files (registry st))
  \/ exists e,
       files (registry (run_call c st)) = files (registry st) ++ [e]
       /\ e_id e = (Z.of_nat (length (files (registry st))) + 1)%Z.
Proof.
  destruct c as [path pn cn ds|path|file_id output_dir|]; cbn [run_call].
  - pose proof (protect_file_cases path pn cn ds st) as Hcases.
    destruct (fs st !! path) as [d|]; [|rewrite Hcases; by left].
    destruct (find_by_hash _ _); [rewrite Hcases; by left|].
    destruct (Utf8.decode _); [|rewrite Hcases; by left].
    destruct Hcases as (e & st' & -> & Hpost). right. exists e.
    split; [apply Hpost | apply Hpost].
  - left. by rewrite verify_file_state.
  - left. by rewrite export_proof_package_registry.
  - left. apply retry_pending_ids.
Qed.

Lemma numbered_of_ids l l' : map e_id l' = map e_id l -> numbered l -> numbered l'.
Proof.
  intros Hids Hl i e' Hi.
  assert (Hm : map e_id l' !! i = Some (e_id e')) by (by rewrite list_lookup_fmap, Hi).
  rewrite Hids, list_lookup_fmap in Hm.
  destruct (l !! i) as [e|] eqn:He; [|done]. injection Hm as <-. by apply Hl.
Qed.

Lemma numbered_snoc l e :
  numbered l -> e_id e = (Z.of_nat (length l) + 1)%Z -> numbered (l ++ [e]).
Proof.
  intros Hl He i x Hi. apply lookup_app_Some in Hi as [Hi|[Hge Hi]]; [by apply Hl|].
  apply list_lookup_singleton_Some in Hi as [Hi ->].
  rewrite He. f_equal. lia.
Qed.

Lemma reachable_numbered st : reachable st -> numbered (files (registry st)).
Proof.
  induction 1 as [st Hempty|st c _ IH|st st' _ IH Hreg].
  - rewrite Hempty. intros i e Hi. by rewrite lookup_nil in Hi.
  - destruct (run_call_ids c st) as [Hids|(e & Hfiles & Hid)].
    + by eapply numbered_of_ids.
    + rewrite Hfiles. by apply numbered_snoc.
  - by rewrite Hreg.
Qed.

Lemma numbered_lt l i j e e' :
  numbered l -> l !! i = Some e -> l !! j = Some e' ->
  (i < j)%nat -> (e_id e < e_id e')%Z.
Proof. intros Hl Hi Hj Hlt. rewrite (Hl i e Hi), (Hl j e' Hj). lia. Qed.

Lemma numbered_NoDup l : numbered l -> NoDup (map e_id l).
Proof.
  intros Hl. apply NoDup_alt. intros i j x Hi Hj.
  rewrite list_lookup_fmap in Hi, Hj.
  destruct (l !! i) as [e|] eqn:Hei; [|done].
  destruct (l !! j) as [e'|] eqn:Hej; [|done].
  injection Hi as <-. injection Hj as Hj.
  rewrite (Hl i e Hei), (Hl j e' Hej) in Hj. lia.
Qed.

(** C6. Id assignment.  In every world reachable from an empty
    registry by calls of [protect_file], [verify_file],
    [export_proof_package] and the retry pass, with any changes of the
    environment in between: the entry at index [i] has id [i + 1], so
    ids are 1-based, unique and strictly increasing in insertion order;
    a call of [protect_file] that returns an entry either leaves the
    list of entries as it is or appends that entry with id equal to the
    number of entries plus one, an id no earlier entry has; and no call
    removes an entry or changes an id, the ids before a call being a
    prefix of the ids after it. *)
Theorem ids_assigned_in_sequence (st : St) :
  reachable st ->
  (forall i e, files (registry st) !! i = Some e -> e_id e = (Z.of_nat i + 1)%Z)
  /\ NoDup (map e_id (files (registry st)))
  /\ (forall i j e e',
        files (registry st) !! i = Some e -> files (registry st) !! j = Some e' ->
        (i < j)%nat -> (e_id e < e_id e')%Z)
  /\ (forall path pn cn ds e st',
        protect_file path pn cn ds st = (Ok e, st') ->
        (files (registry st') = files (registry st) /\ e ∈ files (registry st))
        \/ (files (registry st') = files (registry st) ++ [e]
            /\ e_id e = (Z.of_nat (length (files (registry st))) + 1)%Z
            /\ forall e0, e0 ∈ files (registry st) -> e_id e0 <> e_id e))
  /\ (forall c, map e_id (files (registry st))
                `prefix_of` map e_id (files (registry (run_call c st)))).
Proof.
  intros Hreach. pose proof (reachable_numbered st Hreach) as Hnum.
  split; [exact Hnum|]. split; [by apply numbered_NoDup|].
  split; [intros i j e e'; by apply numbered_lt|]. split.
  - intros path pn cn ds e st' Hrun.
    pose proof (protect_file_cases path pn cn ds st) as Hcases.
    destruct (fs st !! path) as [d|]; [|rewrite Hcases in Hrun; discriminate].
    destruct (find_by_hash _ _) as [entry|] eqn:Hfind.
    + left. rewrite Hcases in Hrun. injection Hrun as <- <-.
      split; [done|]. by apply find_by_hash_Some in Hfind as [? _].
    + destruct (Utf8.decode _); [|rewrite Hcases in Hrun; discriminate].
      destruct Hcases as (e1 & st1 & Hrun1 & Hpost).
      rewrite Hrun1 in Hrun. injection Hrun as <- <-.
      right. split; [apply Hpost|]. split; [apply Hpost|].
      intros e0 [i Hi]%list_elem_of_lookup_1.
      rewrite (Hnum i e0 Hi), (reg_id _ _ _ _ Hpost).
      apply lookup_lt_Some in Hi. lia.
  - intros c. destruct (run_call_ids c st) as [->|(e & -> & _)]; [done|].
    rewrite map_app. by apply prefix_app_r.
Qed.

End Ids.

Lemma ids_assigned_in_sequence_witness :
  let st :=
    run_call (H := RefCodec.codec) (CallProtect "/srv/site/b.html" None None None)
      (run_call (H := RefCodec.codec) (CallProtect "/srv/site/a.html" None None None)
         (Sample.fresh Sample.offline)) in
  map e_id (files (registry st)) = [1; 2]%Z
  /\ NoDup (map e_id (files (registry st))).
Proof.
  intros st.
  destruct (ids_assigned_in_sequence (H := RefCodec.codec) st) as (_ & Hnd & _).
  - unfold st. apply reach_call, reach_call, reach_empty. reflexivity.
  - split; [vm_compute; reflexivity | exact Hnd].
Defined.

